(** * Sanskrit student translator: script normalisation, reply parsing and
      hybrid orchestration

    A shallow embedding of the TypeScript sources

    - [domain/script-detector.ts]      ([ScriptDetectorImpl]),
    - [domain/script-normalizer.ts]    ([ScriptNormalizerImpl]; src/unnamed/part_003),
    - [domain/text-normalizer.ts]      ([normalizeToLines]; src/unnamed/part_004),
    - [adapters/claude-llm-client.ts]  ([ClaudeLlmClient], the reply parser; the
                                        second document of src/current-plan.md),
    - [adapters/llm-translation-service.ts] ([LlmTranslationService]) and, in its
      second document, [adapters/hybrid-translation-service.ts]
      ([HybridTranslationService]),
    - [adapters/normalizing-translation-service.ts], first document
      ([NormalizingTranslationService]),

    followed by the properties established about them. *)

From Stdlib Require Import NArith ZArith Ascii String Bool Lia Btauto.
From stdpp Require Import base option list gmap pretty.

Set Warnings "-register-all".
Local Open Scope N_scope.

(* ===================================================================== *)
(** * JavaScript strings *)
(* ===================================================================== *)

(** A JavaScript string is a sequence of UTF-16 code units.  [length],
    [split], [trim] and the regular expression of [extractJson] work on code
    units; [for (const char of text)] iterates code points. *)
Abbreviation jsstring := (list N).

(** An ASCII literal as a JavaScript string. *)
Fixpoint js (s : string) : jsstring :=
  match s with
  | EmptyString => []
  | String a rest => N_of_ascii a :: js rest
  end.

Definition isLeadSurrogate (u : N) : bool := (0xD800 <=? u) && (u <=? 0xDBFF).
Definition isTrailSurrogate (u : N) : bool := (0xDC00 <=? u) && (u <=? 0xDFFF).

(** The string iterator: a lead surrogate followed by a trail surrogate is one
    code point, any other code unit (a lone surrogate too) is one by itself. *)
Fixpoint codePoints (s : jsstring) : list N :=
  match s with
  | [] => []
  | u :: rest =>
      match rest with
      | v :: rest' =>
          if isLeadSurrogate u && isTrailSurrogate v
          then (0x10000 + (u - 0xD800) * 0x400 + (v - 0xDC00)) :: codePoints rest'
          else u :: codePoints rest
      | [] => [u]
      end
  end.

(** ECMAScript WhiteSpace and LineTerminator: what [trim] strips and what the
    class [\s] matches. *)
Definition isWhiteSpace (u : N) : bool :=
  ((0x0009 <=? u) && (u <=? 0x000D)) || (u =? 0x0020) || (u =? 0x00A0)
  || (u =? 0x1680) || ((0x2000 <=? u) && (u <=? 0x200A))
  || (u =? 0x2028) || (u =? 0x2029) || (u =? 0x202F) || (u =? 0x205F)
  || (u =? 0x3000) || (u =? 0xFEFF).

Fixpoint trimStart (s : jsstring) : jsstring :=
  match s with
  | [] => []
  | u :: rest => if isWhiteSpace u then trimStart rest else s
  end.

Definition trimEnd (s : jsstring) : jsstring := reverse (trimStart (reverse s)).

Definition trim (s : jsstring) : jsstring := trimEnd (trimStart s).

(** [s.split(sep)] for a separator of one code unit: never the empty array,
    the empty string splits into one empty piece. *)
Fixpoint split (sep : N) (s : jsstring) : list jsstring :=
  match s with
  | [] => [[]]
  | u :: rest =>
      if u =? sep then [] :: split sep rest
      else match split sep rest with
           | piece :: pieces => (u :: piece) :: pieces
           | [] => [[u]]
           end
  end.

Definition LF : N := 0x0A.

Fixpoint startsWith (prefix s : jsstring) : bool :=
  match prefix, s with
  | [], _ => true
  | p :: prefix', u :: s' => (p =? u) && startsWith prefix' s'
  | _ :: _, [] => false
  end.

(** [includes needle hay]: [hay.includes(needle)]. *)
Fixpoint includes (needle hay : jsstring) : bool :=
  startsWith needle hay ||
  match hay with
  | [] => false
  | _ :: hay' => includes needle hay'
  end.

(* ===================================================================== *)
(** * domain/script-detector.ts *)
(* ===================================================================== *)

Inductive ScriptType := devanagari | iast | mixed.

Global Instance ScriptType_eq_dec : EqDecision ScriptType.
Proof. solve_decision. Defined.

(** The port. *)
Record ScriptDetector := { detect : jsstring -> ScriptType }.

Definition DEVANAGARI_RANGE_START : N := 0x0900.
Definition DEVANAGARI_RANGE_END : N := 0x097f.

(** [isDevanagari(char)], on the code point of the iterated character. *)
Definition isDevanagari (codePoint : N) : bool :=
  (DEVANAGARI_RANGE_START <=? codePoint) && (codePoint <=? DEVANAGARI_RANGE_END).

Section ScriptDetectorImpl.
(** [/\p{Script=Latin}/u.test(char)]: the Unicode table of the engine that
    runs the code; it is taken as given. *)
Variable isLatin : N -> bool.

(** The loop of [detect], with its two flags and its early return. *)
Fixpoint detect_loop (chars : list N) (hasDevanagari hasLatin : bool) : ScriptType :=
  match chars with
  | [] => if hasDevanagari then devanagari else iast
  | char :: rest =>
      let hasDevanagari' := if isDevanagari char then true else hasDevanagari in
      let hasLatin' :=
        if isDevanagari char then hasLatin
        else if isLatin char then true else hasLatin in
      if hasDevanagari' && hasLatin' then mixed
      else detect_loop rest hasDevanagari' hasLatin'
  end.

Definition ScriptDetectorImpl : ScriptDetector :=
  {| detect := fun text => detect_loop (codePoints text) false false |}.
End ScriptDetectorImpl.

(** The code points of Script=Latin up to U+02B8 (Basic Latin, Latin-1
    Supplement, Latin Extended-A/B, IPA Extensions, modifier letters) and in
    Latin Extended Additional: every letter IAST uses.  A table to run the
    detector on. *)
Definition latinLetters (c : N) : bool :=
  ((0x41 <=? c) && (c <=? 0x5A)) || ((0x61 <=? c) && (c <=? 0x7A))
  || (c =? 0xAA) || (c =? 0xBA)
  || ((0xC0 <=? c) && (c <=? 0xD6)) || ((0xD8 <=? c) && (c <=? 0xF6))
  || ((0xF8 <=? c) && (c <=? 0x2B8)) || ((0x1E00 <=? c) && (c <=? 0x1EFF)).

(* ===================================================================== *)
(** * domain/script-normalizer.ts *)
(* ===================================================================== *)

Inductive NormalizationResult :=
| Success (iast_text : jsstring) (originalScript : ScriptType)
| Failure (error : jsstring).

(** Modelled from the spec: the port [ScriptConverter] of
    domain/script-converter.ts, which is not among the sources; the spec gives
    it as [convert(devanagariText) -> iastText], total and deterministic. *)
Record ScriptConverter := { toIast : jsstring -> jsstring }.

Record ScriptNormalizer := { normalize : jsstring -> NormalizationResult }.

Definition MIXED_SCRIPT_ERROR : jsstring :=
  js "Mixed script input is not supported. Please provide text in either Devanagari or IAST format, not both.".

Definition ScriptNormalizerImpl (detector : ScriptDetector) (converter : ScriptConverter)
  : ScriptNormalizer :=
  {| normalize := fun text =>
       let scriptType := detect detector text in
       if decide (scriptType = mixed) then Failure MIXED_SCRIPT_ERROR
       else if decide (scriptType = devanagari)
            then Success (toIast converter text) devanagari
            else Success text iast |}.

(* ===================================================================== *)
(** * domain/text-normalizer.ts *)
(* ===================================================================== *)

Definition normalizeToLines (text : jsstring) : list jsstring :=
  filter (fun line => (0 < length (trim line))%nat) (split LF text).

(* ===================================================================== *)
(** * Thrown values and promises *)
(* ===================================================================== *)

(** What a [throw] or a rejected promise carries.  [TranslationError] is
    declared in domain/types.ts, which is not among the sources; it is built
    from one message. *)
Inductive Thrown :=
| TranslationError (message : jsstring)   (* domain/types.ts *)
| ClaudeLlmError (message : jsstring)     (* adapters/claude-llm-client.ts *)
| TypeError (message : jsstring)
| OtherError (name message : jsstring)    (* any other instance of Error *)
| NotAnError.                             (* a thrown value that is no Error *)

(** The calls a service makes on its two collaborators, and how each call
    settled, in the order they happen. *)
Inductive Event :=
| LlmInvoked (sutra : jsstring)
| LlmSettled (fulfilled : bool)
| DictInvoked (words : list jsstring)
| DictSettled (fulfilled : bool).

Global Instance Event_eq_dec : EqDecision Event.
Proof. solve_decision. Defined.

Abbreviation History := (list Event).

(** An [async] computation: it extends the history of collaborator calls and
    settles, rejected ([inl]) or fulfilled ([inr]). *)
Definition Promise (A : Type) : Type := History -> History * (Thrown + A).

Definition resolve {A} (a : A) : Promise A := fun h => (h, inr a).
Definition reject {A} (e : Thrown) : Promise A := fun h => (h, inl e).

Definition andThen {A B} (p : Promise A) (k : A -> Promise B) : Promise B :=
  fun h =>
    match p h with
    | (h', inr a) => k a h'
    | (h', inl e) => (h', inl e)
    end.

(** [try { p } catch (error) { handler }]. *)
Definition tryCatch {A} (p : Promise A) (handler : Thrown -> Promise A) : Promise A :=
  fun h =>
    match p h with
    | (h', inl e) => handler e h'
    | settled => settled
    end.

Notation "'await' x <- p ; k" := (andThen p (fun x => k))
  (at level 10, x name, p at level 100, k at level 200,
   format "'[v' 'await'  x  <-  p ; '/' k ']'").

(** How a computation started after [h] settles, and the history it leaves. *)
Definition settled {A} (p : Promise A) (h : History) : Thrown + A := snd (p h).
Definition history {A} (p : Promise A) (h : History) : History := fst (p h).

Definition isLlmInvoked (e : Event) : bool :=
  match e with LlmInvoked _ => true | _ => false end.
Definition isDictInvoked (e : Event) : bool :=
  match e with DictInvoked _ => true | _ => false end.

(** Call counts, as a test double reports them. *)
Definition llmCallCount (h : History) : nat := length (List.filter isLlmInvoked h).
Definition dictCallCount (h : History) : nat := length (List.filter isDictInvoked h).

(* ===================================================================== *)
(** * domain/types.ts, domain/dictionary-client.ts, domain/llm-client.ts *)
(* ===================================================================== *)

Record DictionaryDefinition := { source : jsstring; definition : jsstring }.

(** Modelled from the spec: [WordEntry] of domain/types.ts, which is not among
    the sources; the spec gives it as [{ word: string, grammaticalForm?:
    string, meanings: string[], dictionaryDefinitions?:
    DictionaryDefinition[], contextualNote?: string }].  An optional field is
    [None] when reading it yields [undefined]. *)
Record WordEntry := {
  word : jsstring;
  grammaticalForm : option jsstring;
  meanings : list jsstring;
  dictionaryDefinitions : option (list DictionaryDefinition);
  contextualNote : option jsstring;
}.

(** Modelled from the spec: [TranslationResult] of domain/types.ts, given as
    [{ originalText: string[], iastText: string[], words: WordEntry[],
    alternativeTranslations?: string[], warnings?: string[] }]. *)
Record TranslationResult := {
  originalText : list jsstring;
  iastText : list jsstring;
  words : list WordEntry;
  alternativeTranslations : option (list jsstring);
  warnings : option (list jsstring);
}.

(** Modelled from the spec: [LlmTranslationResponse] of domain/llm-client.ts,
    which is not among the sources; the spec gives what the model port
    answers as [{ words: WordEntry[], alternativeTranslations?: string[] }]. *)
Record LlmTranslationResponse := {
  llm_words : list WordEntry;
  llm_alternativeTranslations : option (list jsstring);
}.

(** A collaborator is whatever answers the call: its reply may depend on the
    argument and on everything that happened before. *)
Record LlmClient := {
  llm_reply : History -> jsstring -> Thrown + LlmTranslationResponse;
}.

Record DictionaryClient := {
  dict_reply : History -> list jsstring -> Thrown + gmap (list N) (list DictionaryDefinition);
}.

Definition isFulfilled {A} (r : Thrown + A) : bool :=
  match r with inr _ => true | inl _ => false end.

(** [await llmClient.translateSutra(sutra)]. *)
Definition translateSutra (client : LlmClient) (sutra : jsstring)
  : Promise LlmTranslationResponse :=
  fun h =>
    let h1 := h ++ [LlmInvoked sutra] in
    let r := llm_reply client h1 sutra in
    (h1 ++ [LlmSettled (isFulfilled r)], r).

(** [await dictionaryClient.lookupWords(words)]. *)
Definition lookupWords (client : DictionaryClient) (ws : list jsstring)
  : Promise (gmap (list N) (list DictionaryDefinition)) :=
  fun h =>
    let h1 := h ++ [DictInvoked ws] in
    let r := dict_reply client h1 ws in
    (h1 ++ [DictSettled (isFulfilled r)], r).

(** The port [TranslationService]. *)
Record TranslationService := { translate : jsstring -> Promise TranslationResult }.

(* ===================================================================== *)
(** * adapters/llm-translation-service.ts *)
(* ===================================================================== *)

Definition LlmTranslationService (llmClient : LlmClient) : TranslationService :=
  {| translate := fun sutra =>
       await llmResponse <- translateSutra llmClient sutra;
       let originalText := normalizeToLines sutra in
       let iastText := normalizeToLines sutra in
       resolve {| originalText := originalText;
                  iastText := iastText;
                  words := llm_words llmResponse;
                  alternativeTranslations := llm_alternativeTranslations llmResponse;
                  warnings := None |} |}.

(* ===================================================================== *)
(** * adapters/hybrid-translation-service.ts *)
(* ===================================================================== *)

Definition DICTIONARY_UNAVAILABLE : jsstring :=
  js "Dictionary API unavailable - showing LLM-only translations".

(** [{ ...llmWord, dictionaryDefinitions: defs }]. *)
Definition withDictionaryDefinitions (llmWord : WordEntry)
    (defs : list DictionaryDefinition) : WordEntry :=
  {| word := word llmWord;
     grammaticalForm := grammaticalForm llmWord;
     meanings := meanings llmWord;
     dictionaryDefinitions := Some defs;
     contextualNote := contextualNote llmWord |}.

(** [dictResults.get(key) || []]: the arrays a [Map<string, any[]>] holds are
    all truthy, so the right operand is taken exactly when the key is absent. *)
Definition getOrEmpty (dictResults : gmap (list N) (list DictionaryDefinition))
    (key : jsstring) : list DictionaryDefinition :=
  default [] (dictResults !! key).

Definition HybridTranslationService (llmClient : LlmClient)
    (dictionaryClient : DictionaryClient) : TranslationService :=
  {| translate := fun sutra =>
       (* Step 1: LLM analysis; a rejection is not caught *)
       await llmResponse <- translateSutra llmClient sutra;
       (* Step 2: the words of the LLM response *)
       let ws := map word (llm_words llmResponse) in
       (* Step 3: dictionary lookup, with fallback *)
       await lookedUp <-
         tryCatch
           (await found <- lookupWords dictionaryClient ws;
            resolve (found, None))
           (fun error => resolve (∅, Some [DICTIONARY_UNAVAILABLE]));
       let '(dictResults, warnings) := lookedUp in
       (* Step 4: merge *)
       let enhancedWords :=
         map (fun llmWord =>
                withDictionaryDefinitions llmWord (getOrEmpty dictResults (word llmWord)))
             (llm_words llmResponse) in
       (* Step 5: the result, multi-line text split into arrays *)
       let originalText :=
         filter (fun line => (0 < length (trim line))%nat) (split LF sutra) in
       let iastText :=
         filter (fun line => (0 < length (trim line))%nat) (split LF sutra) in
       resolve {| originalText := originalText;
                  iastText := iastText;
                  words := enhancedWords;
                  alternativeTranslations := llm_alternativeTranslations llmResponse;
                  warnings := warnings |} |}.

(** ** The object [translate] returns *)








(* ===================================================================== *)
(** * adapters/normalizing-translation-service.ts *)
(* ===================================================================== *)

Definition NormalizingTranslationService (normalizer : ScriptNormalizer)
    (delegate : TranslationService) : TranslationService :=
  {| translate := fun sutra =>
       match normalize normalizer sutra with
       | Failure error => reject (TranslationError error)
       | Success normalized_iast _ =>
           await result <- translate delegate normalized_iast;
           let originalText :=
             filter (fun line => (0 < length (trim line))%nat) (split LF sutra) in
           let iastText :=
             filter (fun line => (0 < length (trim line))%nat) (split LF normalized_iast) in
           (* { ...result, originalText, iastText } *)
           resolve {| originalText := originalText;
                      iastText := iastText;
                      words := words result;
                      alternativeTranslations := alternativeTranslations result;
                      warnings := warnings result |}
       end |}.

(* ===================================================================== *)
(** * adapters/claude-llm-client.ts *)
(* ===================================================================== *)

(** A content block of an [Anthropic.Message]: a text block or a block of
    another type (tool use, thinking, ...). *)
Inductive ContentBlock :=
| TextBlock (text : jsstring)
| NonTextBlock.

Record Message := { content : option (list ContentBlock) }.

Definition isTextBlock (block : ContentBlock) : bool :=
  match block with TextBlock _ => true | NonTextBlock => false end.

(** Sequencing of code that may throw. *)
Definition orThrow {A B} (r : Thrown + A) (k : A -> Thrown + B) : Thrown + B :=
  match r with
  | inl e => inl e
  | inr a => k a
  end.

Notation "'attempt' x <- r ; k" := (orThrow r (fun x => k))
  (at level 10, x name, r at level 100, k at level 200,
   format "'[v' 'attempt'  x  <-  r ; '/' k ']'").

(** [l.map(f)] where [f] may throw: elements in order, the first throw ends it. *)
Fixpoint mapThrow {A B} (f : A -> Thrown + B) (l : list A) : Thrown + list B :=
  match l with
  | [] => inr []
  | a :: rest =>
      attempt b <- f a;
      attempt bs <- mapThrow f rest;
      inr (b :: bs)
  end.

Definition EMPTY_RESPONSE : jsstring := js "Empty response from Claude".
Definition PARSE_FAILURE : jsstring := js "Failed to parse Claude response".
Definition INVALID_STRUCTURE : jsstring :=
  js "Invalid response structure: missing words array".
Definition INVALID_ENTRY : jsstring := js "Invalid word entry structure".
Definition FAILED_TO_TRANSLATE : jsstring := js "Failed to translate sutra: ".
Definition UNKNOWN_ERROR : jsstring := js "Unknown error".
Definition NOT_PRIMITIVE : jsstring := js "Cannot convert object to primitive value".

Definition FENCE : jsstring := js "```".

(** The text after the first occurrence of [needle], if there is one. *)
Fixpoint afterFirst (needle s : jsstring) : option jsstring :=
  if startsWith needle s then Some (drop (length needle) s)
  else match s with
       | [] => None
       | _ :: s' => afterFirst needle s'
       end.

(** The text before the first occurrence of [needle], if there is one. *)
Fixpoint beforeFirst (needle s : jsstring) : option jsstring :=
  if startsWith needle s then Some []
  else match s with
       | [] => None
       | u :: s' => cons u <$> beforeFirst needle s'
       end.

(** [text.match(/```(?:json)?\s*([\s\S]*?)```/)]: group 1 of the leftmost
    match.  After an opening fence the engine takes [json] if it is there,
    then all white space, then the shortest text up to a closing fence; giving
    back [json] or white space never uncovers a closing fence, and a later
    opening fence cannot match when the first one finds no closing fence, so
    the first opening fence decides. *)
Definition codeBlockMatch (text : jsstring) : option jsstring :=
  match afterFirst FENCE text with
  | None => None
  | Some opened =>
      let tagged := if startsWith (js "json") opened then drop 4 opened else opened in
      beforeFirst FENCE (trimStart tagged)
  end.

Definition extractJson (text : jsstring) : jsstring :=
  match codeBlockMatch text with
  | Some group1 => trim group1
  | None => trim text
  end.

Section ClaudeLlmClient.
(** JavaScript numbers and their [String(n)] rendering. *)
Variable Number : Type.
Variable Number_toString : Number -> jsstring.

(** The values [JSON.parse] produces.  An object is its own properties; the
    first binding of a key is the one the object has. *)
Inductive JsValue :=
| JNull
| JBool (b : bool)
| JNumber (n : Number)
| JString (s : jsstring)
| JArray (elements : list JsValue)
| JObject (properties : list (jsstring * JsValue)).

(** [JSON.parse(text)]; [None] when it throws. *)
Variable JSON_parse : jsstring -> option JsValue.

Fixpoint getOwn (key : jsstring) (properties : list (jsstring * JsValue))
  : option JsValue :=
  match properties with
  | [] => None
  | (k, v) :: rest => if decide (k = key) then Some v else getOwn key rest
  end.

(** [typeof v === 'object'] *)
Definition typeofObject (v : JsValue) : bool :=
  match v with
  | JNull | JArray _ | JObject _ => true
  | _ => false
  end.

Definition isNull (v : JsValue) : bool :=
  match v with JNull => true | _ => false end.

(** [obj[key]], [None] for [undefined].  The keys the client reads are no
    property of an array or of a prototype. *)
Definition getProperty (key : jsstring) (obj : JsValue) : option JsValue :=
  match obj with
  | JObject properties => getOwn key properties
  | _ => None
  end.

(** [key in obj], for those keys. *)
Definition hasProperty (key : jsstring) (obj : JsValue) : bool :=
  bool_decide (is_Some (getProperty key obj)).

(** [Array.isArray(v)] *)
Definition isArray (v : option JsValue) : bool :=
  match v with Some (JArray _) => true | _ => false end.

(** [elements.join(',')], given the conversion of an element: [null]
    gives the empty string, the first element that throws ends it. *)
Definition joinElements (toString : JsValue -> Thrown + jsstring)
  : list JsValue -> Thrown + jsstring :=
  fix join (l : list JsValue) : Thrown + jsstring :=
    match l with
    | [] => inr []
    | x :: rest =>
        attempt first <- match x with JNull => inr [] | _ => toString x end;
        match rest with
        | [] => inr first
        | _ :: _ =>
            attempt others <- join rest;
            inr (first ++ js "," ++ others)
        end
    end.

(** [String(v)].  An array is joined with commas.  An object without a
    [toString] key of its own renders through [Object.prototype.toString];
    with one, that property is a JSON value and not callable, [valueOf]
    yields no primitive either, and the conversion throws a [TypeError]. *)
Fixpoint ToString (v : JsValue) : Thrown + jsstring :=
  match v with
  | JNull => inr (js "null")
  | JBool true => inr (js "true")
  | JBool false => inr (js "false")
  | JNumber n => inr (Number_toString n)
  | JString s => inr s
  | JArray elements => joinElements ToString elements
  | JObject properties =>
      match getOwn (js "toString") properties with
      | Some _ => inl (TypeError NOT_PRIMITIVE)
      | None => inr (js "[object Object]")
      end
  end.

(** [String(e.key)] *)
Definition StringOf (property : option JsValue) : Thrown + jsstring :=
  match property with
  | Some v => ToString v
  | None => inr (js "undefined")
  end.

Definition parseJson (text : jsstring) : Thrown + JsValue :=
  match JSON_parse text with
  | Some parsed => inr parsed
  | None => inl (ClaudeLlmError PARSE_FAILURE)
  end.

Definition isValidResponse (obj : JsValue) : bool :=
  typeofObject obj && negb (isNull obj) && hasProperty (js "words") obj
  && isArray (getProperty (js "words") obj).

Definition validateWordEntry (entry : JsValue) : Thrown + WordEntry :=
  if negb (typeofObject entry) || isNull entry
     || negb (hasProperty (js "word") entry)
     || negb (hasProperty (js "grammaticalForm") entry)
     || negb (hasProperty (js "meanings") entry)
  then inl (ClaudeLlmError INVALID_ENTRY)
  else
    attempt w <- StringOf (getProperty (js "word") entry);
    attempt g <- StringOf (getProperty (js "grammaticalForm") entry);
    attempt ms <- match getProperty (js "meanings") entry with
                  | Some (JArray elements) => mapThrow ToString elements
                  | other => attempt m <- StringOf other; inr [m]
                  end;
    inr {| word := w;
           grammaticalForm := Some g;
           meanings := ms;
           dictionaryDefinitions := None;
           contextualNote := None |}.

Definition validateResponse (parsed : JsValue) : Thrown + LlmTranslationResponse :=
  if negb (isValidResponse parsed)
  then inl (ClaudeLlmError INVALID_STRUCTURE)
  else
    match getProperty (js "words") parsed with
    | Some (JArray elements) =>
        attempt ws <- mapThrow validateWordEntry elements;
        inr {| llm_words := ws; llm_alternativeTranslations := None |}
    | _ => inl (ClaudeLlmError INVALID_STRUCTURE)
    end.

Definition parseResponse (response : Message) : Thrown + LlmTranslationResponse :=
  match content response with
  | None | Some [] => inl (ClaudeLlmError EMPTY_RESPONSE)
  | Some blocks =>
      match List.find isTextBlock blocks with
      | Some (TextBlock text) =>
          let jsonText := extractJson text in
          attempt parsed <- parseJson jsonText;
          validateResponse parsed
      | _ => inl (ClaudeLlmError EMPTY_RESPONSE)
      end
  end.

(** The [catch] of [translateSutra]: a [ClaudeLlmError] goes through, any
    other thrown value is wrapped into one. *)
Definition rethrow (error : Thrown) : Thrown :=
  match error with
  | ClaudeLlmError _ => error
  | TranslationError message | TypeError message | OtherError _ message =>
      ClaudeLlmError (FAILED_TO_TRANSLATE ++ message)
  | NotAnError => ClaudeLlmError (FAILED_TO_TRANSLATE ++ UNKNOWN_ERROR)
  end.

(** [translateSutra], given how [client.messages.create] settled. *)
Definition ClaudeLlmClient_translateSutra (created : Thrown + Message)
  : Thrown + LlmTranslationResponse :=
  match (attempt response <- created; parseResponse response) with
  | inl error => inl (rethrow error)
  | inr response => inr response
  end.

(** The client as an [LlmClient], over the API it calls. *)
Definition ClaudeLlmClient (messages_create : History -> jsstring -> Thrown + Message)
  : LlmClient :=
  {| llm_reply := fun h sutra => ClaudeLlmClient_translateSutra (messages_create h sutra) |}.
End ClaudeLlmClient.

Arguments JNull {Number}.
Arguments JBool {Number} b.
Arguments JString {Number} s.
Arguments JArray {Number} elements.
Arguments JObject {Number} properties.
Arguments JNumber {Number} n.
Arguments getOwn {Number} key properties.
Arguments getProperty {Number} key obj.
Arguments hasProperty {Number} key obj.
Arguments isArray {Number} v.
Arguments typeofObject {Number} v.
Arguments isNull {Number} v.
Arguments isValidResponse {Number} obj.
Arguments joinElements {Number} toString l.
Arguments ToString {Number} Number_toString v.
Arguments StringOf {Number} Number_toString property.
Arguments validateWordEntry {Number} Number_toString entry.
Arguments validateResponse {Number} Number_toString parsed.
Arguments parseJson {Number} JSON_parse text.
Arguments parseResponse {Number} Number_toString JSON_parse response.
Arguments ClaudeLlmClient_translateSutra {Number} Number_toString JSON_parse created.
Arguments ClaudeLlmClient {Number} Number_toString JSON_parse messages_create.

(** Integers as numbers, printed in decimal: enough to run the parser on
    replies whose numbers are small integers. *)
Definition Z_toString (n : Z) : jsstring := js (pretty n).

(* ===================================================================== *)
(** * Vocabulary of the statements *)
(* ===================================================================== *)

(** The text contains a code point of the Devanagari block. *)
Definition containsDevanagari (text : jsstring) : Prop :=
  exists c, c ∈ codePoints text /\ isDevanagari c = true.

(** The text contains a code point of the Latin script. *)
Definition containsLatin (isLatin : N -> bool) (text : jsstring) : Prop :=
  exists c, c ∈ codePoints text /\ isLatin c = true.

(** [a.join(sep)] for a separator of one code unit. *)
Fixpoint join (sep : N) (pieces : list jsstring) : jsstring :=
  match pieces with
  | [] => []
  | [piece] => piece
  | piece :: rest => piece ++ sep :: join sep rest
  end.

(** The events of [h'] that came after [h]. *)
Definition since (h h' : History) : list Event := drop (length h) h'.

(** The history in which the model answers a call made after [h], and the
    one in which the dictionary then answers the lookup of [ws]. *)
Definition atLlmCall (h : History) (sutra : jsstring) : History :=
  h ++ [LlmInvoked sutra].
Definition atDictCall (h : History) (sutra : jsstring) (ws : list jsstring) : History :=
  h ++ [LlmInvoked sutra; LlmSettled true; DictInvoked ws].

(** Step 4 of the hybrid service, by itself. *)
Definition mergeDefinitions (dictResults : gmap (list N) (list DictionaryDefinition))
    (llmWords : list WordEntry) : list WordEntry :=
  map (fun llmWord =>
         withDictionaryDefinitions llmWord (getOrEmpty dictResults (word llmWord)))
      llmWords.

(** The three ways a run of the hybrid service started after [h] can go: the
    history it leaves and how it settles. *)
Inductive HybridRun (llmClient : LlmClient) (dictionaryClient : DictionaryClient)
    (sutra : jsstring) (h : History) : History -> Thrown + TranslationResult -> Prop :=
| LlmRejected error :
    llm_reply llmClient (atLlmCall h sutra) sutra = inl error ->
    HybridRun llmClient dictionaryClient sutra h
      (h ++ [LlmInvoked sutra; LlmSettled false]) (inl error)
| DictionaryRejected llmResponse error :
    let ws := map word (llm_words llmResponse) in
    llm_reply llmClient (atLlmCall h sutra) sutra = inr llmResponse ->
    dict_reply dictionaryClient (atDictCall h sutra ws) ws = inl error ->
    HybridRun llmClient dictionaryClient sutra h
      (h ++ [LlmInvoked sutra; LlmSettled true; DictInvoked ws; DictSettled false])
      (inr {| originalText := normalizeToLines sutra;
              iastText := normalizeToLines sutra;
              words := mergeDefinitions ∅ (llm_words llmResponse);
              alternativeTranslations := llm_alternativeTranslations llmResponse;
              warnings := Some [DICTIONARY_UNAVAILABLE] |})
| BothFulfilled llmResponse found :
    let ws := map word (llm_words llmResponse) in
    llm_reply llmClient (atLlmCall h sutra) sutra = inr llmResponse ->
    dict_reply dictionaryClient (atDictCall h sutra ws) ws = inr found ->
    HybridRun llmClient dictionaryClient sutra h
      (h ++ [LlmInvoked sutra; LlmSettled true; DictInvoked ws; DictSettled true])
      (inr {| originalText := normalizeToLines sutra;
              iastText := normalizeToLines sutra;
              words := mergeDefinitions found (llm_words llmResponse);
              alternativeTranslations := llm_alternativeTranslations llmResponse;
              warnings := None |}).

(** The text of the first text block of a reply, if it has one. *)
Definition firstText (response : Message) : option jsstring :=
  match content response with
  | None => None
  | Some blocks =>
      match List.find isTextBlock blocks with
      | Some (TextBlock text) => Some text
      | _ => None
      end
  end.

(** A converter and two collaborators to run the services on. *)
Definition identityConverter : ScriptConverter := {| toIast := fun text => text |}.

Definition omEntry : WordEntry :=
  {| word := js "om";
     grammaticalForm := Some (js "indeclinable");
     meanings := [js "sacred syllable"];
     dictionaryDefinitions := None;
     contextualNote := Some (js "The opening syllable") |}.

Definition omLlmClient : LlmClient :=
  {| llm_reply := fun _ _ =>
       inr {| llm_words := [omEntry]; llm_alternativeTranslations := None |} |}.

Definition failingLlmClient : LlmClient :=
  {| llm_reply := fun _ _ =>
       inl (OtherError (js "Error") (js "LLM service unavailable")) |}.

Definition failingDictionaryClient : DictionaryClient :=
  {| dict_reply := fun _ _ =>
       inl (OtherError (js "Error") (js "Dictionary API unavailable")) |}.

Definition omDefinition : DictionaryDefinition :=
  {| source := js "PWG Dictionary"; definition := js "the sacred syllable" |}.

Definition omDictionaryClient : DictionaryClient :=
  {| dict_reply := fun _ _ => inr {[ js "om" := [omDefinition] ]} |}.

(** The normalising wrapper around the hybrid service, over those
    collaborators. *)
Definition sampleNormalizer : ScriptNormalizer :=
  ScriptNormalizerImpl (ScriptDetectorImpl latinLetters) identityConverter.

Definition sampleService : TranslationService :=
  NormalizingTranslationService sampleNormalizer
    (HybridTranslationService omLlmClient omDictionaryClient).

(** A Devanagari letter, a space and a Latin letter. *)
Definition mixedText : jsstring := [0x905; 0x20; 0x61].

(** What [validateWordEntry] makes of an element [entry] it accepts: the
    three required keys are there, [word] and [grammaticalForm] are their
    [String(...)], [meanings] the strings of the array's elements, or the one
    string of a value that is no array; no other field is set. *)
Definition coercedEntry {Number} (Number_toString : Number -> jsstring)
    (entry : JsValue Number) (w : WordEntry) : Prop :=
  hasProperty (js "word") entry = true
  /\ hasProperty (js "grammaticalForm") entry = true
  /\ hasProperty (js "meanings") entry = true
  /\ StringOf Number_toString (getProperty (js "word") entry) = inr (word w)
  /\ (exists g, StringOf Number_toString (getProperty (js "grammaticalForm") entry) = inr g
                /\ grammaticalForm w = Some g)
  /\ match getProperty (js "meanings") entry with
     | Some (JArray elements) =>
         Forall2 (fun m s => ToString Number_toString m = inr s) elements (meanings w)
     | other =>
         exists s, StringOf Number_toString other = inr s /\ meanings w = [s]
     end
  /\ dictionaryDefinitions w = None
  /\ contextualNote w = None.

(** An element that misses one of the required keys, or is no object. *)
Definition missesRequiredKey {Number} (entry : JsValue Number) : Prop :=
  typeofObject entry = false \/ isNull entry = true
  \/ hasProperty (js "word") entry = false
  \/ hasProperty (js "grammaticalForm") entry = false
  \/ hasProperty (js "meanings") entry = false.

(** The messages a caller of the client can see. *)
Definition CLIENT_MESSAGES : list jsstring :=
  [EMPTY_RESPONSE; PARSE_FAILURE; INVALID_STRUCTURE; INVALID_ENTRY;
   FAILED_TO_TRANSLATE ++ NOT_PRIMITIVE].

(** JSON text, written with its quotation marks. *)
Definition quoted (s : jsstring) : jsstring := 0x22 :: s ++ [0x22].

(** A [JSON.parse] that knows one text. *)
Definition parsesOnly {Number} (text : jsstring) (value : JsValue Number)
  : jsstring -> option (JsValue Number) :=
  fun candidate => if decide (candidate = text) then Some value else None.

(** A reply whose entry has a contextual note and which lists an alternative
    translation; as a value, and [omEntryJson] as one element. *)
Definition omEntryJson : JsValue Z :=
  JObject [(js "word", JString (js "om"));
           (js "grammaticalForm", JString (js "indeclinable"));
           (js "meanings", JArray [JString (js "sacred syllable")]);
           (js "contextualNote", JString (js "The opening syllable"))].

Definition omReplyJson : JsValue Z :=
  JObject [(js "words", JArray [omEntryJson]);
           (js "alternativeTranslations", JArray [JString (js "Om")])].

(** A reply whose [word] is an object with a [toString] key: the text
    [{"words":[{"word":{"toString":null},"grammaticalForm":"noun","meanings":[]}]}]
    and the value [JSON.parse] gives for it. *)
Definition unprintableText : jsstring :=
  js "{" ++ quoted (js "words") ++ js ":[{" ++ quoted (js "word") ++ js ":{"
  ++ quoted (js "toString") ++ js ":null}," ++ quoted (js "grammaticalForm")
  ++ js ":" ++ quoted (js "noun") ++ js "," ++ quoted (js "meanings") ++ js ":[]}]}".

Definition unprintableJson : JsValue Z :=
  JObject [(js "words",
            JArray [JObject [(js "word", JObject [(js "toString", JNull)]);
                             (js "grammaticalForm", JString (js "noun"));
                             (js "meanings", JArray [])]])].

Definition unprintableReply : Message :=
  {| content := Some [TextBlock unprintableText] |}.

(** A reply whose text is no JSON, after a block that is no text. *)
Definition notJsonReply : Message :=
  {| content := Some [NonTextBlock; TextBlock (js "not json")] |}.

(* ===================================================================== *)
(** * adapters/claude-llm-client.ts: the constructor *)
(* ===================================================================== *)

Definition API_KEY_REQUIRED : jsstring := js "ANTHROPIC_API_KEY is required".

(** [new ClaudeLlmClient(apiKey)], given [process.env.ANTHROPIC_API_KEY]: the
    key the Anthropic client is built with, or the error thrown.
    [apiKey ?? env] takes the environment only when no key is passed;
    [!resolvedApiKey] holds for [undefined] and for the empty string. *)
Definition ClaudeLlmClient_constructor (apiKey env : option jsstring)
  : Thrown + jsstring :=
  let resolvedApiKey := match apiKey with Some key => Some key | None => env end in
  match resolvedApiKey with
  | None | Some [] => inl (ClaudeLlmError API_KEY_REQUIRED)
  | Some key => inr key
  end.

(* ===================================================================== *)
(** * The command line (src/unnamed/part_002) *)
(* ===================================================================== *)

Module Cli.

Record Config := { useMock : bool; sutra : option jsstring }.

Definition MOCK : jsstring := js "--mock".
Definition SPACE : N := 0x20.

(** [parseArgs(args)] *)
Definition parseArgs (args : list jsstring) : Config :=
  let useMock := bool_decide (MOCK ∈ args) in
  let filteredArgs := filter (fun arg => arg <> MOCK) args in
  let sutra :=
    if bool_decide (0 < length filteredArgs)%nat
    then Some (join SPACE filteredArgs)
    else None in
  {| useMock := useMock; sutra := sutra |}.

End Cli.

(* ===================================================================== *)
(** * adapters/prompt-loader.ts *)
(* ===================================================================== *)

Definition DOLLAR : N := 0x24.

(** The replacement text of [replaceAll] for one match of a string pattern:
    [$$] is a dollar sign, [$&] the matched text, [$`] the text before the
    match and [$'] the text after it; with no capture groups every other use
    of the dollar sign stands for itself. *)
Fixpoint getSubstitution (matched before after template : jsstring) : jsstring :=
  match template with
  | [] => []
  | u :: rest =>
      if u =? DOLLAR then
        match rest with
        | v :: rest' =>
            if v =? DOLLAR then DOLLAR :: getSubstitution matched before after rest'
            else if v =? 0x26 then matched ++ getSubstitution matched before after rest'
            else if v =? 0x60 then before ++ getSubstitution matched before after rest'
            else if v =? 0x27 then after ++ getSubstitution matched before after rest'
            else DOLLAR :: getSubstitution matched before after rest
        | [] => [DOLLAR]
        end
      else u :: getSubstitution matched before after rest
  end.

(** The scan of [s.replaceAll(pattern, replacement)] for a pattern that is
    not empty: [before] is what has been read, [skip] counts the code units
    of a match still to pass over. *)
Fixpoint replaceAll_scan (pattern replacement : jsstring) (skip : nat)
    (before s : jsstring) : jsstring :=
  match s with
  | [] => []
  | u :: rest =>
      match skip with
      | S skip' => replaceAll_scan pattern replacement skip' (before ++ [u]) rest
      | O =>
          if startsWith pattern s
          then getSubstitution pattern before (drop (length pattern) s) replacement
               ++ replaceAll_scan pattern replacement (length pattern - 1)
                    (before ++ [u]) rest
          else u :: replaceAll_scan pattern replacement 0 (before ++ [u]) rest
      end
  end.

Definition replaceAll (pattern replacement s : jsstring) : jsstring :=
  replaceAll_scan pattern replacement 0 [] s.

(** [`{{${name}}}`] *)
Definition placeholder (name : jsstring) : jsstring := js "{{" ++ name ++ js "}}".

(** [substituteVariables(template, variables)], with [variables] as
    [Object.entries] lists it. *)
Definition substituteVariables (template : jsstring)
    (variables : list (jsstring * jsstring)) : jsstring :=
  fold_left (fun result entry => replaceAll (placeholder entry.1) entry.2 result)
    variables template.

(** What the loader uses of [fs] and [path]. *)
Record FileSystem := {
  path_join : jsstring -> jsstring -> jsstring;
  existsSync : jsstring -> bool;
  readFileSync : jsstring -> Thrown + jsstring;
}.

Definition PromptNotFoundError (promptName : jsstring) : Thrown :=
  OtherError (js "PromptNotFoundError")
    (js "Prompt file not found: " ++ promptName ++ js ".txt").

(** [loadPrompt(promptName)] of a loader for [promptsDirectory], over the
    cache it holds: what it returns or throws, and the cache afterwards. *)
Definition loadPrompt (fs : FileSystem) (promptsDirectory promptName : jsstring)
    (cache : gmap (list N) (list N)) : (Thrown + jsstring) * gmap (list N) (list N) :=
  match cache !! promptName with
  | Some cached => (inr cached, cache)
  | None =>
      let filePath := path_join fs promptsDirectory (promptName ++ js ".txt") in
      if negb (existsSync fs filePath) then (inl (PromptNotFoundError promptName), cache)
      else match readFileSync fs filePath with
           | inl error => (inl error, cache)
           | inr content => (inr content, <[promptName := content]> cache)
           end
  end.

(** [buildPrompt(promptName, variables)] *)
Definition buildPrompt (fs : FileSystem) (promptsDirectory promptName : jsstring)
    (variables : list (jsstring * jsstring)) (cache : gmap (list N) (list N))
  : (Thrown + jsstring) * gmap (list N) (list N) :=
  match loadPrompt fs promptsDirectory promptName cache with
  | (inr template, cache') => (inr (substituteVariables template variables), cache')
  | (inl error, cache') => (inl error, cache')
  end.

(* ===================================================================== *)
(** * domain/ocr-translation-service.ts: the image check *)
(* ===================================================================== *)

(** [buffer[i] === byte]; past the end [buffer[i]] is [undefined]. *)
Definition byteIs (buffer : list N) (i : nat) (byte : N) : bool :=
  bool_decide (buffer !! i = Some byte).

(** [isValidImageBuffer(buffer)] *)
Definition isValidImageBuffer (buffer : list N) : bool :=
  if bool_decide (length buffer < 4)%nat then false
  else if byteIs buffer 0 0x89 && byteIs buffer 1 0x50 && byteIs buffer 2 0x4e
          && byteIs buffer 3 0x47 then true
  else if byteIs buffer 0 0xff && byteIs buffer 1 0xd8 && byteIs buffer 2 0xff then true
  else if bool_decide (12 <= length buffer)%nat
          && byteIs buffer 0 0x52 && byteIs buffer 1 0x49 && byteIs buffer 2 0x46
          && byteIs buffer 3 0x46 && byteIs buffer 8 0x57 && byteIs buffer 9 0x45
          && byteIs buffer 10 0x42 && byteIs buffer 11 0x50 then true
  else if (byteIs buffer 0 0x49 && byteIs buffer 1 0x49 && byteIs buffer 2 0x2a
           && byteIs buffer 3 0x00)
          || (byteIs buffer 0 0x4d && byteIs buffer 1 0x4d && byteIs buffer 2 0x00
              && byteIs buffer 3 0x2a) then true
  else false.

(* ===================================================================== *)
(** * Vocabulary of the further statements *)
(* ===================================================================== *)

Definition BACKTICK : N := 0x60.

(** No object that [String(v)] reaches, through arrays, has a [toString] key
    of its own. *)
Fixpoint convertible {Number} (v : JsValue Number) : bool :=
  match v with
  | JArray elements => forallb convertible elements
  | JObject properties => negb (bool_decide (is_Some (getOwn (js "toString") properties)))
  | _ => true
  end.

Definition REQUIRED_KEYS : list jsstring :=
  [js "word"; js "grammaticalForm"; js "meanings"].

(** The values of the required keys of [entry] are convertible. *)
Definition convertibleEntry {Number} (entry : JsValue Number) : Prop :=
  forall key v,
    key ∈ REQUIRED_KEYS -> getProperty key entry = Some v -> convertible v = true.

(** An entry as the client returns it: a grammatical form and nothing beyond
    the three fields. *)
Definition threeFieldEntry (e : WordEntry) : Prop :=
  is_Some (grammaticalForm e)
  /\ dictionaryDefinitions e = None /\ contextualNote e = None.

(** The JSON the prompt asks the model for, for given entries. *)
Definition encodeWordEntry {Number} (e : WordEntry) : JsValue Number :=
  JObject [(js "word", JString (word e));
           (js "grammaticalForm",
            match grammaticalForm e with Some g => JString g | None => JNull end);
           (js "meanings", JArray (map JString (meanings e)))].

Definition encodeReply {Number} (entries : list WordEntry) : JsValue Number :=
  JObject [(js "words", JArray (map encodeWordEntry entries))].

(** The Claude client over an API that answers [unprintableReply], and the
    pipeline over it. *)
Definition unprintableClient : LlmClient :=
  ClaudeLlmClient Z_toString (parsesOnly unprintableText unprintableJson)
    (fun _ _ => inr unprintableReply).

Definition unprintablePipeline : TranslationService :=
  NormalizingTranslationService sampleNormalizer
    (HybridTranslationService unprintableClient omDictionaryClient).

(** A file system in which every prompt file holds one template, and one
    with no file at all. *)
Definition promptFiles : FileSystem :=
  {| path_join := fun directory file => directory ++ js "/" ++ file;
     existsSync := fun _ => true;
     readFileSync := fun _ => inr (js "Translate: {{sutra}}") |}.

Definition noFiles : FileSystem :=
  {| path_join := fun directory file => directory ++ js "/" ++ file;
     existsSync := fun _ => false;
     readFileSync := fun _ => inl (OtherError (js "Error") (js "ENOENT")) |}.

(** The signatures the image check knows. *)
Definition PNG : list N := [0x89; 0x50; 0x4e; 0x47].
Definition JPEG : list N := [0xff; 0xd8; 0xff].
Definition RIFF : list N := [0x52; 0x49; 0x46; 0x46].
Definition WEBP : list N := [0x57; 0x45; 0x42; 0x50].
Definition TIFF_LE : list N := [0x49; 0x49; 0x2a; 0x00].
Definition TIFF_BE : list N := [0x4d; 0x4d; 0x00; 0x2a].

(** A converter to run the normaliser on: it drops the code units of the
    Devanagari block, so its output has none. *)
Definition droppingConverter : ScriptConverter :=
  {| toIast := List.filter (fun u => negb (isDevanagari u)) |}.

(** A reply whose one entry has a word and nothing else: the text
    [{"words":[{"word":"om"}]}] and the value [JSON.parse] gives for it. *)
Definition wordOnlyText : jsstring :=
  js "{" ++ quoted (js "words") ++ js ":[{" ++ quoted (js "word") ++ js ":"
  ++ quoted (js "om") ++ js "}]}".

Definition wordOnlyEntryJson : JsValue Z :=
  JObject [(js "word", JString (js "om"))].

Definition wordOnlyJson : JsValue Z :=
  JObject [(js "words", JArray [wordOnlyEntryJson])].

Definition wordOnlyReply : Message :=
  {| content := Some [TextBlock wordOnlyText] |}.


(* ===================================================================== *)
(** * Properties of the script detector *)
(* ===================================================================== *)

Section DetectorProperties.
Variable isLatin : N -> bool.

(** What the two flags hold once the loop has seen [chars]. *)
Lemma detect_loop_flags (chars : list N) (d l : bool) :
  d && l = false ->
  detect_loop isLatin chars d l =
    let d' := d || existsb isDevanagari chars in
    let l' := l || existsb (fun c => negb (isDevanagari c) && isLatin c) chars in
    if d' && l' then mixed else if d' then devanagari else iast.
Proof.
  revert d l. induction chars as [|c chars IH]; intros d l Hdl; simpl.
  - rewrite !orb_false_r, Hdl. reflexivity.
  - destruct (isDevanagari c) eqn:Hd, (isLatin c) eqn:Hl, d, l;
      simpl in *; try discriminate; try reflexivity;
      rewrite IH by reflexivity; simpl; reflexivity.
Qed.

Lemma existsb_isDevanagari (text : jsstring) :
  existsb isDevanagari (codePoints text) = true <-> containsDevanagari text.
Proof.
  unfold containsDevanagari. rewrite existsb_exists.
  split; intros (c & Hc & H); exists c; split; auto; by apply list_elem_of_In.
Qed.

Hypothesis latin_not_devanagari : forall c, isLatin c = true -> isDevanagari c = false.

Lemma existsb_isLatin (text : jsstring) :
  existsb (fun c => negb (isDevanagari c) && isLatin c) (codePoints text) = true
  <-> containsLatin isLatin text.
Proof.
  unfold containsLatin. rewrite existsb_exists.
  split; intros (c & Hc & H); exists c; (split; [by apply list_elem_of_In|]).
  - apply andb_true_iff in H. tauto.
  - rewrite H, (latin_not_devanagari c H). reflexivity.
Qed.

Lemma detect_cases (text : jsstring) :
  detect (ScriptDetectorImpl isLatin) text =
    if existsb isDevanagari (codePoints text)
    then if existsb (fun c => negb (isDevanagari c) && isLatin c) (codePoints text)
         then mixed else devanagari
    else iast.
Proof.
  simpl. rewrite detect_loop_flags by reflexivity. simpl.
  destruct (existsb isDevanagari _), (existsb (fun c => _) _); reflexivity.
Qed.
End DetectorProperties.

Lemma latinLetters_not_devanagari (c : N) :
  latinLetters c = true -> isDevanagari c = false.
Proof.
  unfold latinLetters, isDevanagari, DEVANAGARI_RANGE_START, DEVANAGARI_RANGE_END.
  intros H. apply andb_false_iff.
  destruct (N.leb_spec 0x900 c); [right | left; reflexivity].
  apply N.leb_gt.
  repeat (apply orb_true_iff in H; destruct H as [H|H]);
    repeat (apply andb_true_iff in H; destruct H as [? H]);
    repeat match goal with
           | H : (_ <=? _) = true |- _ => apply N.leb_le in H
           | H : (_ =? _) = true |- _ => apply N.eqb_eq in H
           end; try lia.
Qed.

(** C5.  With a Latin-script table that has nothing in the Devanagari block,
    [detect] answers [mixed] exactly for the texts that contain a Devanagari
    code point and a Latin code point; otherwise it answers [devanagari]
    exactly when a Devanagari code point occurs and [iast] when none does,
    which covers the empty text and the texts of neutral code points only. *)
Theorem detect_classification (isLatin : N -> bool)
    (latin_not_devanagari : forall c, isLatin c = true -> isDevanagari c = false)
    (text : jsstring) :
  let classify := detect (ScriptDetectorImpl isLatin) in
  (classify text = mixed <-> containsDevanagari text /\ containsLatin isLatin text)
  /\ (classify text = devanagari <->
        containsDevanagari text /\ ~ containsLatin isLatin text)
  /\ (classify text = iast <-> ~ containsDevanagari text)
  /\ classify [] = iast
  /\ ((forall c, c ∈ codePoints text -> isDevanagari c = false /\ isLatin c = false) ->
      classify text = iast).
Proof.
  intros classify. unfold classify. rewrite detect_cases.
  pose proof (existsb_isDevanagari text) as HD.
  pose proof (existsb_isLatin isLatin latin_not_devanagari text) as HL.
  destruct (existsb isDevanagari (codePoints text)) eqn:ED;
    destruct (existsb (fun c => _) (codePoints text)) eqn:EL;
    repeat split; try discriminate; try reflexivity; try tauto;
    try (intros [? ?]; intuition discriminate);
    try (intros ?; intuition discriminate);
    try (intros Hneutral; exfalso;
         assert (HcD : containsDevanagari text) by tauto;
         destruct HcD as (c & Hc & Hdev);
         destruct (Hneutral c Hc) as [Hno _]; congruence).
Qed.

Lemma detect_classification_witness :
  (forall c, latinLetters c = true -> isDevanagari c = false)
  /\ (detect (ScriptDetectorImpl latinLetters) mixedText = mixed
      <-> containsDevanagari mixedText /\ containsLatin latinLetters mixedText).
Proof.
  split; [exact latinLetters_not_devanagari |].
  exact (proj1 (detect_classification latinLetters latinLetters_not_devanagari
                  mixedText)).
Defined.

(* ===================================================================== *)
(** * Properties of the script normaliser *)
(* ===================================================================== *)

(** C6.  [normalize] is a total function of the text that follows the
    detected script: [mixed] gives the failure with the fixed message,
    [devanagari] the converted text, [iast] the text itself. *)
Theorem normalize_by_script (detector : ScriptDetector) (converter : ScriptConverter)
    (text : jsstring) :
  let normalizer := ScriptNormalizerImpl detector converter in
  (detect detector text = mixed ->
     normalize normalizer text = Failure MIXED_SCRIPT_ERROR)
  /\ (detect detector text = devanagari ->
        normalize normalizer text = Success (toIast converter text) devanagari)
  /\ (detect detector text = iast ->
        normalize normalizer text = Success text iast).
Proof.
  simpl. destruct (detect detector text); repeat split; intros H;
    try discriminate H; reflexivity.
Qed.

Lemma normalize_by_script_witness :
  detect (ScriptDetectorImpl latinLetters) mixedText = mixed
  /\ normalize sampleNormalizer mixedText = Failure MIXED_SCRIPT_ERROR.
Proof.
  split; [reflexivity |].
  apply (proj1 (normalize_by_script (ScriptDetectorImpl latinLetters)
                  identityConverter mixedText)).
  reflexivity.
Defined.

(* ===================================================================== *)
(** * Properties of the hybrid translation service *)
(* ===================================================================== *)

Lemma since_app (h events : History) : since h (h ++ events) = events.
Proof. unfold since. by rewrite drop_app_length. Qed.

Lemma getOrEmpty_empty (key : jsstring) : getOrEmpty ∅ key = [].
Proof. unfold getOrEmpty. by rewrite lookup_empty. Qed.

(** Every run of [translate] is one of the three of [HybridRun]. *)
Lemma hybrid_run (llmClient : LlmClient) (dictionaryClient : DictionaryClient)
    (sutra : jsstring) (h : History) :
  let run := translate (HybridTranslationService llmClient dictionaryClient) sutra in
  HybridRun llmClient dictionaryClient sutra h (history run h) (settled run h).
Proof.
  unfold history, settled; simpl.
  unfold andThen, tryCatch, translateSutra, lookupWords, resolve.
  destruct (llm_reply llmClient (h ++ [LlmInvoked sutra]) sutra)
    as [error|llmResponse] eqn:Llm; simpl.
  - rewrite <- app_assoc. by apply LlmRejected.
  - destruct (dict_reply dictionaryClient
                (((h ++ [LlmInvoked sutra]) ++ [LlmSettled true])
                 ++ [DictInvoked (map word (llm_words llmResponse))])
                (map word (llm_words llmResponse))) as [error|found] eqn:Dict;
      simpl; rewrite <- !app_assoc in *; simpl in *.
    + by eapply DictionaryRejected.
    + by eapply BothFulfilled.
Qed.

(** C2.  The events of a run are the model call and its settlement, followed
    by the dictionary call only when the model call was fulfilled.  When the
    model rejects, [translate] rejects with the same error and the dictionary
    was never invoked. *)
Theorem llm_settles_before_dictionary (llmClient : LlmClient)
    (dictionaryClient : DictionaryClient) (sutra : jsstring) (h : History) :
  let run := translate (HybridTranslationService llmClient dictionaryClient) sutra in
  let events := since h (history run h) in
  history run h = h ++ events
  /\ (forall error,
        llm_reply llmClient (h ++ [LlmInvoked sutra]) sutra = inl error ->
        settled run h = inl error
        /\ events = [LlmInvoked sutra; LlmSettled false]
        /\ dictCallCount events = 0%nat)
  /\ (forall before ws after,
        events = before ++ DictInvoked ws :: after ->
        before = [LlmInvoked sutra; LlmSettled true]).
Proof.
  cbn zeta.
  pose proof (hybrid_run llmClient dictionaryClient sutra h) as Run; cbn zeta in Run.
  destruct Run
    as [error Llm | llmResponse error ws Llm Dict | llmResponse found ws Llm Dict];
    try subst ws; unfold atLlmCall in Llm; rewrite since_app;
    (split; [reflexivity|]); split.
  - intros error' H. rewrite Llm in H. injection H as <-. auto.
  - intros before ws after H.
    destruct before as [|? [|? [|? ?]]]; simplify_eq.
  - intros ? ?; congruence.
  - intros before ws' after H.
    destruct before as [|? [|? [|? [|? [|? ?]]]]]; simplify_eq/=; reflexivity.
  - intros ? ?; congruence.
  - intros before ws' after H.
    destruct before as [|? [|? [|? [|? [|? ?]]]]]; simplify_eq/=; reflexivity.
Qed.

Lemma llm_settles_before_dictionary_witness :
  settled (translate (HybridTranslationService failingLlmClient omDictionaryClient)
             (js "om")) []
  = inl (OtherError (js "Error") (js "LLM service unavailable"))
  /\ since [] (history (translate (HybridTranslationService failingLlmClient
                                    omDictionaryClient) (js "om")) [])
     = [LlmInvoked (js "om"); LlmSettled false]
  /\ dictCallCount
       (since [] (history (translate (HybridTranslationService failingLlmClient
                                        omDictionaryClient) (js "om")) []))
     = 0%nat.
Proof.
  apply (proj1 (proj2 (llm_settles_before_dictionary failingLlmClient
                         omDictionaryClient (js "om") []))).
  reflexivity.
Defined.





(** C1, as the code has it.  When the model call is fulfilled and the
    dictionary call is rejected, the run still returns a result; its words are
    the model's entries, in order, each with [dictionaryDefinitions] set to
    the empty list. *)
Theorem fallback_sets_empty_definitions (llmClient : LlmClient)
    (dictionaryClient : DictionaryClient) (sutra : jsstring) (h : History)
    (llmResponse : LlmTranslationResponse) (error : Thrown) :
  let run := translate (HybridTranslationService llmClient dictionaryClient) sutra in
  let ws := map word (llm_words llmResponse) in
  llm_reply llmClient (atLlmCall h sutra) sutra = inr llmResponse ->
  dict_reply dictionaryClient (atDictCall h sutra ws) ws = inl error ->
  exists result,
    settled run h = inr result
    /\ words result
       = map (fun llmWord => withDictionaryDefinitions llmWord []) (llm_words llmResponse)
    /\ Forall (fun entry => dictionaryDefinitions entry = Some []) (words result).
Proof.
  cbn zeta. intros HLlm HDict.
  pose proof (hybrid_run llmClient dictionaryClient sutra h) as Run; cbn zeta in Run.
  destruct Run
    as [error' Llm | llmResponse' error' ws Llm Dict | llmResponse' found ws Llm Dict];
    try subst ws; rewrite HLlm in Llm; simplify_eq; [| congruence].
  eexists. split; [reflexivity|]. simpl. unfold mergeDefinitions. split.
  - apply map_ext. intros w. by rewrite getOrEmpty_empty.
  - apply Forall_forall. intros entry Hin.
    change (map ?f ?l) with (f <$> l) in Hin.
    apply list_elem_of_fmap in Hin as (w & -> & _).
    simpl. by rewrite getOrEmpty_empty.
Qed.

Lemma fallback_sets_empty_definitions_witness :
  exists result,
    settled (translate (HybridTranslationService omLlmClient failingDictionaryClient)
               (js "om")) [] = inr result
    /\ words result = [withDictionaryDefinitions omEntry []]
    /\ Forall (fun entry => dictionaryDefinitions entry = Some []) (words result).
Proof.
  exact (fallback_sets_empty_definitions omLlmClient failingDictionaryClient
           (js "om") []
           {| llm_words := [omEntry]; llm_alternativeTranslations := None |}
           (OtherError (js "Error") (js "Dictionary API unavailable"))
           eq_refl eq_refl).
Defined.

(** C1, as stated, fails: with a model that answers one entry and a
    dictionary that rejects, the returned entry has [dictionaryDefinitions]
    set, to the empty list. *)
Lemma fallback_definitions_not_absent :
  exists result,
    settled (translate (HybridTranslationService omLlmClient failingDictionaryClient)
               (js "om")) [] = inr result
    /\ history (translate (HybridTranslationService omLlmClient failingDictionaryClient)
                  (js "om")) []
       = [LlmInvoked (js "om"); LlmSettled true;
          DictInvoked [js "om"]; DictSettled false]
    /\ words result = [withDictionaryDefinitions omEntry []]
    /\ ~ Forall (fun entry => dictionaryDefinitions entry = None) (words result).
Proof.
  eexists. split; [reflexivity|]. split; [reflexivity|]. split; [reflexivity|].
  intros H. apply Forall_inv in H. discriminate H.
Qed.

(** C10.  When both calls are fulfilled, the words of the result are the
    model's entries in the same number and order; the i-th differs from the
    i-th model entry in [dictionaryDefinitions] only, which is what the map
    holds for that entry's [word], or the empty list when the map has no such
    key.  Entries with equal [word] get equal [dictionaryDefinitions]. *)
Theorem merge_on_success (llmClient : LlmClient)
    (dictionaryClient : DictionaryClient) (sutra : jsstring) (h : History)
    (llmResponse : LlmTranslationResponse)
    (found : gmap (list N) (list DictionaryDefinition)) :
  let run := translate (HybridTranslationService llmClient dictionaryClient) sutra in
  let ws := map word (llm_words llmResponse) in
  llm_reply llmClient (atLlmCall h sutra) sutra = inr llmResponse ->
  dict_reply dictionaryClient (atDictCall h sutra ws) ws = inr found ->
  exists result,
    settled run h = inr result
    /\ length (words result) = length (llm_words llmResponse)
    /\ (forall i llmWord,
          llm_words llmResponse !! i = Some llmWord ->
          exists entry,
            words result !! i = Some entry
            /\ word entry = word llmWord
            /\ grammaticalForm entry = grammaticalForm llmWord
            /\ meanings entry = meanings llmWord
            /\ contextualNote entry = contextualNote llmWord
            /\ dictionaryDefinitions entry
               = Some (default [] (found !! word llmWord)))
    /\ (forall entry1 entry2,
          entry1 ∈ words result -> entry2 ∈ words result ->
          word entry1 = word entry2 ->
          dictionaryDefinitions entry1 = dictionaryDefinitions entry2).
Proof.
  cbn zeta. intros HLlm HDict.
  pose proof (hybrid_run llmClient dictionaryClient sutra h) as Run; cbn zeta in Run.
  destruct Run
    as [error' Llm | llmResponse' error' ws Llm Dict | llmResponse' found' ws Llm Dict];
    try subst ws; rewrite HLlm in Llm; simplify_eq; [congruence |].
  rewrite HDict in Dict. injection Dict as <-.
  eexists. split; [reflexivity|]. simpl. unfold mergeDefinitions.
  change (map ?f ?l) with (f <$> l). split; [apply length_fmap|]. split.
  - intros i llmWord Hi. eexists. rewrite list_lookup_fmap, Hi. simpl.
    split; [reflexivity|]. by repeat split.
  - intros entry1 entry2 H1 H2 Hword.
    apply list_elem_of_fmap in H1 as (w1 & -> & _).
    apply list_elem_of_fmap in H2 as (w2 & -> & _).
    simpl in *. by rewrite Hword.
Qed.

Lemma merge_on_success_witness :
  exists result,
    settled (translate (HybridTranslationService omLlmClient omDictionaryClient)
               (js "om")) [] = inr result
    /\ length (words result) = 1%nat.
Proof.
  destruct (merge_on_success omLlmClient omDictionaryClient (js "om") []
              {| llm_words := [omEntry]; llm_alternativeTranslations := None |}
              {[ js "om" := [omDefinition] ]} eq_refl eq_refl)
    as (result & Hsettled & Hlength & _).
  exists result. split; [exact Hsettled | exact Hlength].
Defined.

(* ===================================================================== *)
(** * Properties of [split] and [normalizeToLines] *)
(* ===================================================================== *)

Lemma split_nonempty (sep : N) (s : jsstring) : split sep s <> [].
Proof.
  destruct s as [|u s]; simpl; [done|].
  destruct (u =? sep); [done|]. by destruct (split sep s).
Qed.

Lemma split_no_separator (sep : N) (s : jsstring) : sep ∉ s -> split sep s = [s].
Proof.
  induction s as [|u s IH]; simpl; intros Hnot; [done|].
  apply not_elem_of_cons in Hnot as [Hne Hnot].
  destruct (N.eqb_spec u sep) as [->|_]; [done|]. by rewrite IH.
Qed.

Lemma split_at_separator (sep : N) (l1 l2 : jsstring) :
  sep ∉ l1 -> split sep (l1 ++ sep :: l2) = l1 :: split sep l2.
Proof.
  induction l1 as [|u l1 IH]; simpl; intros Hnot.
  - by rewrite N.eqb_refl.
  - apply not_elem_of_cons in Hnot as [Hne Hnot].
    destruct (N.eqb_spec u sep) as [->|_]; [done|]. by rewrite IH.
Qed.

Lemma join_split (sep : N) (s : jsstring) : join sep (split sep s) = s.
Proof.
  induction s as [|u s IH]; simpl; [done|].
  pose proof (split_nonempty sep s) as Hne.
  destruct (split sep s) as [|piece pieces]; [done|].
  destruct (N.eqb_spec u sep) as [->|_].
  - simpl in *. by rewrite IH.
  - destruct pieces; simpl in *; by rewrite <- IH.
Qed.

Lemma split_pieces (sep : N) (s : jsstring) :
  Forall (fun piece => sep ∉ piece) (split sep s).
Proof.
  induction s as [|u s IH]; simpl.
  - constructor; [apply not_elem_of_nil | constructor].
  - destruct (N.eqb_spec u sep) as [->|Hne].
    + constructor; [apply not_elem_of_nil | done].
    + destruct (split sep s) as [|piece pieces].
      * constructor; [|constructor].
        apply not_elem_of_cons. split; [congruence | apply not_elem_of_nil].
      * inversion IH; subst. constructor; [|done].
        apply not_elem_of_cons. split; [congruence | done].
Qed.

Lemma nonblank_iff (line : jsstring) : (0 < length (trim line))%nat <-> trim line <> [].
Proof. destruct (trim line); simpl; split; intros; try done; lia. Qed.

Lemma normalizeToLines_spec (text : jsstring) :
  sublist (normalizeToLines text) (split LF text)
  /\ (forall line,
        line ∈ normalizeToLines text <-> line ∈ split LF text /\ trim line <> []).
Proof.
  unfold normalizeToLines. split; [apply sublist_filter|].
  intros line. rewrite list_elem_of_filter, nonblank_iff. tauto.
Qed.

Lemma normalizeToLines_two (line1 line2 : jsstring) :
  LF ∉ line1 -> LF ∉ line2 -> trim line1 <> [] -> trim line2 <> [] ->
  normalizeToLines (line1 ++ LF :: line2) = [line1; line2].
Proof.
  intros H1 H2 T1 T2. unfold normalizeToLines.
  rewrite split_at_separator, (split_no_separator _ line2) by done.
  rewrite !filter_cons_True; [done | by apply nonblank_iff ..].
Qed.

Lemma normalizeToLines_one (line : jsstring) :
  LF ∉ line -> trim line <> [] -> normalizeToLines line = [line].
Proof.
  intros H T. unfold normalizeToLines. rewrite split_no_separator by done.
  rewrite filter_cons_True; [done | by apply nonblank_iff].
Qed.

(* ===================================================================== *)
(** * Properties of the normalising translation service *)
(* ===================================================================== *)

(** One run of the wrapper, by what the normaliser and the delegate answer. *)
Lemma normalizing_run (normalizer : ScriptNormalizer) (delegate : TranslationService)
    (sutra : jsstring) (h : History) :
  translate (NormalizingTranslationService normalizer delegate) sutra h =
    match normalize normalizer sutra with
    | Failure error => (h, inl (TranslationError error))
    | Success normalized _ =>
        match translate delegate normalized h with
        | (h', inr result) =>
            (h', inr {| originalText := normalizeToLines sutra;
                        iastText := normalizeToLines normalized;
                        words := words result;
                        alternativeTranslations := alternativeTranslations result;
                        warnings := warnings result |})
        | (h', inl error) => (h', inl error)
        end
    end.
Proof.
  simpl. destruct (normalize normalizer sutra) as [normalized script|error];
    [|reflexivity].
  unfold andThen. by destruct (translate delegate normalized h) as [h' [error|result]].
Qed.

(** C7.  When normalisation fails, [translate] rejects with a
    [TranslationError] carrying the normaliser's message, and the history of
    collaborator calls is left as it was: the delegate, and with it the model
    and the dictionary, is not invoked. *)
Theorem failed_normalization_makes_no_call (normalizer : ScriptNormalizer)
    (delegate : TranslationService) (sutra error : jsstring) (h : History) :
  let run := translate (NormalizingTranslationService normalizer delegate) sutra in
  normalize normalizer sutra = Failure error ->
  settled run h = inl (TranslationError error)
  /\ history run h = h
  /\ since h (history run h) = []
  /\ llmCallCount (history run h) = llmCallCount h
  /\ dictCallCount (history run h) = dictCallCount h.
Proof.
  cbn zeta. intros Hfail. unfold settled, history.
  rewrite normalizing_run, Hfail. cbn [fst snd].
  repeat split. unfold since. by rewrite drop_all.
Qed.

Lemma failed_normalization_makes_no_call_witness :
  normalize sampleNormalizer mixedText = Failure MIXED_SCRIPT_ERROR
  /\ settled (translate sampleService mixedText) []
     = inl (TranslationError MIXED_SCRIPT_ERROR)
  /\ history (translate sampleService mixedText) [] = []
  /\ since [] (history (translate sampleService mixedText) []) = []
  /\ llmCallCount (history (translate sampleService mixedText) []) = llmCallCount []
  /\ dictCallCount (history (translate sampleService mixedText) []) = dictCallCount [].
Proof.
  split; [reflexivity |].
  apply (failed_normalization_makes_no_call sampleNormalizer
           (HybridTranslationService omLlmClient omDictionaryClient)
           mixedText MIXED_SCRIPT_ERROR []).
  reflexivity.
Defined.

(** C9, as the code has it.  In every result of the top-level [translate],
    [originalText] and [iastText] are the arrays [normalizeToLines] gives for
    the raw and for the normalised text: the pieces between line feeds, in
    order, those kept whose trimmed form is not empty, each kept piece as it
    stands in the text.  One non-blank line gives an array of one element, two
    non-blank lines an array of two. *)
Theorem text_fields_are_kept_lines (normalizer : ScriptNormalizer)
    (delegate : TranslationService) (sutra : jsstring) (h : History) :
  let run := translate (NormalizingTranslationService normalizer delegate) sutra in
  (forall result,
     settled run h = inr result ->
     exists normalized script,
       normalize normalizer sutra = Success normalized script
       /\ originalText result = normalizeToLines sutra
       /\ iastText result = normalizeToLines normalized)
  /\ (forall text,
        join LF (split LF text) = text
        /\ Forall (fun piece => LF ∉ piece) (split LF text)
        /\ sublist (normalizeToLines text) (split LF text)
        /\ (forall line,
              line ∈ normalizeToLines text <-> line ∈ split LF text /\ trim line <> []))
  /\ (forall line,
        LF ∉ line -> trim line <> [] -> normalizeToLines line = [line])
  /\ (forall line1 line2,
        LF ∉ line1 -> LF ∉ line2 -> trim line1 <> [] -> trim line2 <> [] ->
        normalizeToLines (line1 ++ LF :: line2) = [line1; line2]).
Proof.
  cbn zeta. split; [|split; [|split]].
  - intros result. unfold settled. rewrite normalizing_run.
    destruct (normalize normalizer sutra) as [normalized script|error];
      [|discriminate].
    destruct (translate delegate normalized h) as [h' [error|delegated]];
      [discriminate|].
    cbn [snd]. intros [= <-]. by exists normalized, script.
  - intros text. split; [apply join_split|]. split; [apply split_pieces|].
    apply normalizeToLines_spec.
  - apply normalizeToLines_one.
  - apply normalizeToLines_two.
Qed.

Lemma text_fields_are_kept_lines_witness :
  exists result normalized script,
    settled (translate sampleService (js "om")) [] = inr result
    /\ normalize sampleNormalizer (js "om") = Success normalized script
    /\ originalText result = normalizeToLines (js "om")
    /\ iastText result = normalizeToLines normalized.
Proof.
  eexists.
  destruct (proj1 (text_fields_are_kept_lines sampleNormalizer
                     (HybridTranslationService omLlmClient omDictionaryClient)
                     (js "om") []) _ eq_refl)
    as (normalized & script & Hnormalize & Horiginal & Hiast).
  exists normalized, script. split; [reflexivity|]. by repeat split.
Defined.

(** C9, as stated, fails: a line with a leading space is kept with its
    space, so the kept element is not a trimmed string. *)
Lemma kept_line_not_trimmed :
  exists result,
    settled (translate sampleService (js " om")) [] = inr result
    /\ originalText result = [js " om"]
    /\ iastText result = [js " om"]
    /\ trim (js " om") = js "om"
    /\ ~ Forall (fun line => trim line = line) (originalText result)
    /\ ~ Forall (fun line => trim line = line) (iastText result).
Proof.
  eexists. split; [reflexivity|]. split; [reflexivity|]. split; [reflexivity|].
  split; [reflexivity|].
  split; intros H; apply Forall_inv in H; discriminate H.
Qed.

(* ===================================================================== *)
(** * Properties of the reply parser *)
(* ===================================================================== *)

Section MapThrow.
Context {A B : Type} (f : A -> Thrown + B).

Lemma mapThrow_fulfilled (l : list A) (bs : list B) :
  mapThrow f l = inr bs -> Forall2 (fun a b => f a = inr b) l bs.
Proof.
  revert bs. induction l as [|a l IH]; simpl; intros bs H.
  - injection H as <-. constructor.
  - destruct (f a) as [e|b] eqn:Fa; simpl in H; [discriminate|].
    destruct (mapThrow f l) as [e|bs'] eqn:Fl; simpl in H; [discriminate|].
    injection H as <-. constructor; auto.
Qed.

(** The first element that throws decides. *)
Lemma mapThrow_first_throw (good : list A) (bad : A) (rest : list A) (e : Thrown) :
  Forall (fun a => isFulfilled (f a) = true) good ->
  f bad = inl e ->
  mapThrow f (good ++ bad :: rest) = inl e.
Proof.
  intros Hgood Hbad. induction Hgood as [|a good Ha _ IH]; simpl.
  - by rewrite Hbad.
  - destruct (f a); [discriminate Ha|]. simpl. by rewrite IH.
Qed.

Lemma mapThrow_rejected (l : list A) (e : Thrown) :
  mapThrow f l = inl e -> exists a, a ∈ l /\ f a = inl e.
Proof.
  induction l as [|a l IH]; simpl; intros H; [discriminate|].
  destruct (f a) as [e'|b] eqn:Fa; simpl in H.
  - injection H as <-. exists a. split; [left | done].
  - destruct (mapThrow f l) as [e'|bs] eqn:Fl; simpl in H; [|discriminate].
    injection H as <-. destruct (IH eq_refl) as (a' & Hin & Ha').
    exists a'. split; [by right | done].
Qed.
End MapThrow.

Section ParserProperties.
Context {Number : Type} (Number_toString : Number -> jsstring).
Context (JSON_parse : jsstring -> option (JsValue Number)).

(** Induction on a value, with the elements of an array as premises. *)
Lemma JsValue_elements_ind (P : JsValue Number -> Prop) :
  P JNull -> (forall b, P (JBool b)) -> (forall n, P (JNumber n)) ->
  (forall s, P (JString s)) ->
  (forall elements, Forall P elements -> P (JArray elements)) ->
  (forall properties, P (JObject properties)) ->
  forall v, P v.
Proof.
  intros HNull HBool HNumber HString HArray HObject.
  fix IH 1. intros [| b | n | s | elements | properties];
    [exact HNull | apply HBool | apply HNumber | apply HString | | apply HObject].
  apply HArray. induction elements as [|x rest IHrest]; constructor.
  - apply IH.
  - exact IHrest.
Qed.

Lemma joinElements_throws (toString : JsValue Number -> Thrown + jsstring)
    (l : list (JsValue Number)) (e : Thrown) :
  Forall (fun x => forall e', toString x = inl e' -> e' = TypeError NOT_PRIMITIVE) l ->
  joinElements toString l = inl e -> e = TypeError NOT_PRIMITIVE.
Proof.
  intros Hl. revert e. induction Hl as [|x rest Hx _ IH]; intros e; cbn [joinElements].
  - discriminate.
  - fold (joinElements toString).
    destruct (match x with JNull => inr [] | _ => toString x end)
      as [e'|first] eqn:First; cbn [orThrow].
    + intros [= <-]. destruct x; try (by apply Hx); discriminate.
    + destruct rest as [|y rest']; [discriminate|].
      destruct (joinElements toString (y :: rest')) as [e'|others] eqn:Others;
        cbn [orThrow]; [|discriminate].
      intros [= <-]. by apply IH.
Qed.

(** A string conversion can only throw the [TypeError] of an object that is
    not convertible to a primitive. *)
Lemma ToString_throws (v : JsValue Number) (e : Thrown) :
  ToString Number_toString v = inl e -> e = TypeError NOT_PRIMITIVE.
Proof.
  revert e. induction v as [| b | n | s | elements IH | properties]
    using JsValue_elements_ind; intros e.
  - discriminate.
  - destruct b; discriminate.
  - discriminate.
  - discriminate.
  - cbn [ToString]. by apply joinElements_throws.
  - cbn [ToString]. destruct (getOwn (js "toString") properties); [|discriminate].
    by intros [= <-].
Qed.

Lemma StringOf_throws (property : option (JsValue Number)) (e : Thrown) :
  StringOf Number_toString property = inl e -> e = TypeError NOT_PRIMITIVE.
Proof. destruct property; [apply ToString_throws | discriminate]. Qed.
Lemma mapThrow_ToString_throws (l : list (JsValue Number)) (e : Thrown) :
  mapThrow (ToString Number_toString) l = inl e -> e = TypeError NOT_PRIMITIVE.
Proof.
  intros H. apply mapThrow_rejected in H as (v & _ & Hv).
  by apply ToString_throws in Hv.
Qed.

Lemma validateWordEntry_missing (entry : JsValue Number) :
  missesRequiredKey entry ->
  validateWordEntry Number_toString entry = inl (ClaudeLlmError INVALID_ENTRY).
Proof.
  unfold missesRequiredKey, validateWordEntry.
  intros [H | [H | [H | [H | H]]]]; rewrite H; simpl;
    rewrite ?orb_true_r; reflexivity.
Qed.

Lemma validateWordEntry_throws (entry : JsValue Number) (e : Thrown) :
  validateWordEntry Number_toString entry = inl e ->
  e = ClaudeLlmError INVALID_ENTRY \/ e = TypeError NOT_PRIMITIVE.
Proof.
  unfold validateWordEntry.
  destruct (negb (typeofObject entry) || isNull entry
            || negb (hasProperty (js "word") entry)
            || negb (hasProperty (js "grammaticalForm") entry)
            || negb (hasProperty (js "meanings") entry));
    [intros [= <-]; by left|].
  intros H. right.
  destruct (StringOf Number_toString (getProperty (js "word") entry))
    as [e1|w] eqn:W; cbn [orThrow] in H;
    [injection H as <-; by apply StringOf_throws in W|].
  destruct (StringOf Number_toString (getProperty (js "grammaticalForm") entry))
    as [e2|g] eqn:G; cbn [orThrow] in H;
    [injection H as <-; by apply StringOf_throws in G|].
  destruct (getProperty (js "meanings") entry) as [[| | | |elements|]|] eqn:M;
    cbn [orThrow StringOf] in H;
    match type of H with
    | context [mapThrow] =>
        destruct (mapThrow (ToString Number_toString) elements) as [e3|ms] eqn:Ms;
        cbn [orThrow] in H; [|discriminate];
        injection H as <-; by apply mapThrow_ToString_throws in Ms
    | context [ToString Number_toString ?v] =>
        destruct (ToString Number_toString v) as [e3|m] eqn:Ms;
        cbn [orThrow] in H; [|discriminate];
        injection H as <-; by apply ToString_throws in Ms
    | _ => discriminate
    end.
Qed.

Lemma validateWordEntry_fulfilled (entry : JsValue Number) (w : WordEntry) :
  validateWordEntry Number_toString entry = inr w ->
  coercedEntry Number_toString entry w.
Proof.
  unfold validateWordEntry, coercedEntry.
  destruct (typeofObject entry); [|discriminate].
  destruct (isNull entry); [discriminate|].
  destruct (hasProperty (js "word") entry); [|discriminate].
  destruct (hasProperty (js "grammaticalForm") entry); [|discriminate].
  destruct (hasProperty (js "meanings") entry); [|discriminate].
  cbn [negb orb].
  destruct (StringOf Number_toString (getProperty (js "word") entry))
    as [e1|w0]; cbn [orThrow]; [discriminate|].
  destruct (StringOf Number_toString (getProperty (js "grammaticalForm") entry))
    as [e2|g]; cbn [orThrow]; [discriminate|].
  intros H. do 3 (split; [reflexivity|]).
  destruct (getProperty (js "meanings") entry) as [[| | | |elements|]|] eqn:M;
    cbn [orThrow StringOf] in H;
    match type of H with
    | context [mapThrow] =>
        destruct (mapThrow (ToString Number_toString) elements) as [e3|ms] eqn:Ms;
        cbn [orThrow] in H; [discriminate|];
        injection H as <-; cbn;
        repeat split; eauto using mapThrow_fulfilled
    | context [ToString Number_toString ?v] =>
        destruct (ToString Number_toString v) as [e3|m] eqn:Ms;
        cbn [orThrow] in H; [discriminate|];
        injection H as <-; cbn; repeat split; eauto
    | _ => injection H as <-; cbn; repeat split; eauto
    end.
Qed.

Lemma isValidResponse_words (parsed : JsValue Number) :
  isValidResponse parsed = true ->
  exists elements, getProperty (js "words") parsed = Some (JArray elements).
Proof.
  unfold isValidResponse. intros H.
  apply andb_true_iff in H as [_ H]. unfold isArray in H.
  destruct (getProperty (js "words") parsed) as [[| | | |elements|]|];
    try discriminate. by exists elements.
Qed.

Lemma validateResponse_invalid (parsed : JsValue Number) :
  isValidResponse parsed = false ->
  validateResponse Number_toString parsed = inl (ClaudeLlmError INVALID_STRUCTURE).
Proof. unfold validateResponse. by intros ->. Qed.

Lemma validateResponse_valid (parsed : JsValue Number)
    (elements : list (JsValue Number)) :
  isValidResponse parsed = true ->
  getProperty (js "words") parsed = Some (JArray elements) ->
  validateResponse Number_toString parsed =
    (attempt ws <- mapThrow (validateWordEntry Number_toString) elements;
     inr {| llm_words := ws; llm_alternativeTranslations := None |}).
Proof. unfold validateResponse. by intros -> ->. Qed.

Lemma validateResponse_throws (parsed : JsValue Number) (e : Thrown) :
  validateResponse Number_toString parsed = inl e ->
  e = ClaudeLlmError INVALID_STRUCTURE \/ e = ClaudeLlmError INVALID_ENTRY
  \/ e = TypeError NOT_PRIMITIVE.
Proof.
  destruct (isValidResponse parsed) eqn:Valid.
  - destruct (isValidResponse_words parsed Valid) as [elements Words].
    rewrite (validateResponse_valid parsed elements Valid Words).
    destruct (mapThrow (validateWordEntry Number_toString) elements)
      as [e'|ws] eqn:Ws; cbn [orThrow]; [|discriminate].
    intros [= <-]. apply mapThrow_rejected in Ws as (entry & _ & Hentry).
    right. by apply validateWordEntry_throws in Hentry.
  - rewrite validateResponse_invalid by done. intros [= <-]. by left.
Qed.

Lemma parseResponse_no_text (response : Message) :
  firstText response = None ->
  parseResponse Number_toString JSON_parse response
  = inl (ClaudeLlmError EMPTY_RESPONSE).
Proof.
  unfold firstText, parseResponse.
  destruct (content response) as [[|block blocks]|]; try reflexivity.
  by destruct (List.find isTextBlock (block :: blocks)) as [[text|]|].
Qed.

Lemma parseResponse_text (response : Message) (text : jsstring) :
  firstText response = Some text ->
  parseResponse Number_toString JSON_parse response =
    (attempt parsed <- parseJson JSON_parse (extractJson text);
     validateResponse Number_toString parsed).
Proof.
  unfold firstText, parseResponse.
  destruct (content response) as [[|block blocks]|]; try discriminate.
  destruct (List.find isTextBlock (block :: blocks)) as [[text'|]|];
    try discriminate. by intros [= ->].
Qed.

Lemma parseResponse_throws (response : Message) (e : Thrown) :
  parseResponse Number_toString JSON_parse response = inl e ->
  e ∈ [ClaudeLlmError EMPTY_RESPONSE; ClaudeLlmError PARSE_FAILURE;
       ClaudeLlmError INVALID_STRUCTURE; ClaudeLlmError INVALID_ENTRY;
       TypeError NOT_PRIMITIVE].
Proof.
  destruct (firstText response) as [text|] eqn:Text.
  - rewrite (parseResponse_text response text Text). unfold parseJson.
    destruct (JSON_parse (extractJson text)) as [parsed|]; cbn [orThrow].
    + intros H. apply validateResponse_throws in H as [-> | [-> | ->]];
        set_solver.
    + intros [= <-]. set_solver.
  - rewrite parseResponse_no_text by done. intros [= <-]. set_solver.
Qed.
End ParserProperties.

(** C4, as the code has it.  A reply that [validateResponse] accepts has a
    [words] array, and the output lists one entry per element, in order, with
    [word], [grammaticalForm] and [meanings] converted to strings and nothing
    else: [contextualNote] and [dictionaryDefinitions] are not set on any
    entry, and the output has no alternative translations. *)
Theorem validated_reply_has_three_fields {Number : Type}
    (Number_toString : Number -> jsstring) (parsed : JsValue Number)
    (response : LlmTranslationResponse) :
  validateResponse Number_toString parsed = inr response ->
  exists elements,
    getProperty (js "words") parsed = Some (JArray elements)
    /\ Forall2 (coercedEntry Number_toString) elements (llm_words response)
    /\ length (llm_words response) = length elements
    /\ Forall (fun w => contextualNote w = None) (llm_words response)
    /\ llm_alternativeTranslations response = None.
Proof.
  intros H.
  destruct (isValidResponse parsed) eqn:Valid;
    [|by rewrite validateResponse_invalid in H].
  destruct (isValidResponse_words parsed Valid) as [elements Words].
  rewrite (validateResponse_valid Number_toString parsed elements Valid Words) in H.
  destruct (mapThrow (validateWordEntry Number_toString) elements) as [e|ws] eqn:Ws;
    cbn [orThrow] in H; [discriminate|].
  injection H as <-. exists elements. cbn.
  apply mapThrow_fulfilled in Ws.
  assert (Hcoerced : Forall2 (coercedEntry Number_toString) elements ws).
  { eapply Forall2_impl; [exact Ws|]. intros entry w.
    apply validateWordEntry_fulfilled. }
  split; [done|]. split; [done|].
  split; [symmetry; by eapply Forall2_length|]. split; [|done].
  clear Ws Words.
  induction Hcoerced as [|entry w elements' ws' Hw _ IH]; [constructor|].
  constructor; [apply Hw | exact IH].
Qed.

Lemma validated_reply_has_three_fields_witness :
  exists response,
    validateResponse Z_toString omReplyJson = inr response
    /\ exists elements,
         getProperty (js "words") omReplyJson = Some (JArray elements)
         /\ Forall2 (coercedEntry Z_toString) elements (llm_words response)
         /\ length (llm_words response) = length elements
         /\ Forall (fun w => contextualNote w = None) (llm_words response)
         /\ llm_alternativeTranslations response = None.
Proof.
  eexists. split; [reflexivity|].
  exact (validated_reply_has_three_fields Z_toString omReplyJson _ eq_refl).
Defined.

(** C4, as stated, fails: the reply carries a contextual note on its entry
    and a list of alternative translations; the output has neither. *)
Lemma contextual_note_not_passed_through :
  exists response entry,
    validateResponse Z_toString omReplyJson = inr response
    /\ getProperty (js "contextualNote") omEntryJson
       = Some (JString (js "The opening syllable"))
    /\ is_Some (getProperty (js "alternativeTranslations") omReplyJson)
    /\ llm_words response = [entry]
    /\ word entry = js "om"
    /\ contextualNote entry <> Some (js "The opening syllable")
    /\ llm_alternativeTranslations response = None.
Proof.
  eexists. eexists. split; [reflexivity|]. split; [reflexivity|].
  split; [by eexists|]. split; [reflexivity|]. split; [reflexivity|].
  split; [discriminate | reflexivity].
Qed.

(** C8, as the code has it.  The parser rejects with one of four fixed
    [ClaudeLlmError] messages or, when a value to convert to a string is an
    object that has no primitive form, with the [TypeError] of that
    conversion; the [catch] of [translateSutra] turns the latter into a
    [ClaudeLlmError] of a fifth message, so the client only ever rejects with
    a [ClaudeLlmError] whose message is one of five, none of which occurs
    inside another.  The
    stages are tried in order: no text block gives the empty-response message,
    text that does not parse the parse-failure message, a value without a
    [words] array the message with "missing words array", and the first
    element that misses a required key, after elements that were accepted,
    the invalid-entry message. *)
Theorem parser_rejections {Number : Type} (Number_toString : Number -> jsstring)
    (JSON_parse : jsstring -> option (JsValue Number)) (response : Message) :
  let parse := parseResponse Number_toString JSON_parse in
  let client := ClaudeLlmClient_translateSutra Number_toString JSON_parse in
  (forall error,
     parse response = inl error ->
     error ∈ [ClaudeLlmError EMPTY_RESPONSE; ClaudeLlmError PARSE_FAILURE;
              ClaudeLlmError INVALID_STRUCTURE; ClaudeLlmError INVALID_ENTRY;
              TypeError NOT_PRIMITIVE])
  /\ (forall error,
        client (inr response) = inl error ->
        exists message, error = ClaudeLlmError message /\ message ∈ CLIENT_MESSAGES)
  /\ NoDup CLIENT_MESSAGES
  /\ (forall m1 m2,
        m1 ∈ CLIENT_MESSAGES -> m2 ∈ CLIENT_MESSAGES -> includes m1 m2 = true ->
        m1 = m2)
  /\ includes (js "missing words array") INVALID_STRUCTURE = true
  /\ (firstText response = None ->
      parse response = inl (ClaudeLlmError EMPTY_RESPONSE))
  /\ (forall text,
        firstText response = Some text ->
        JSON_parse (extractJson text) = None ->
        parse response = inl (ClaudeLlmError PARSE_FAILURE))
  /\ (forall text parsed,
        firstText response = Some text ->
        JSON_parse (extractJson text) = Some parsed ->
        isValidResponse parsed = false ->
        parse response = inl (ClaudeLlmError INVALID_STRUCTURE))
  /\ (forall text parsed good bad rest,
        firstText response = Some text ->
        JSON_parse (extractJson text) = Some parsed ->
        getProperty (js "words") parsed = Some (JArray (good ++ bad :: rest)) ->
        Forall (fun entry =>
                  isFulfilled (validateWordEntry Number_toString entry) = true) good ->
        missesRequiredKey bad ->
        parse response = inl (ClaudeLlmError INVALID_ENTRY)).
Proof.
  cbn zeta. split; [apply parseResponse_throws|]. split.
  { intros error. unfold ClaudeLlmClient_translateSutra. cbn [orThrow].
    destruct (parseResponse Number_toString JSON_parse response) as [e|ok] eqn:Parsed;
      [|discriminate].
    intros [= <-]. apply parseResponse_throws in Parsed.
    rewrite !elem_of_cons, elem_of_nil in Parsed.
    destruct Parsed as [-> | [-> | [-> | [-> | [-> | []]]]]];
      cbn [rethrow]; eexists; (split; [reflexivity|]);
      unfold CLIENT_MESSAGES; set_solver. }
  split; [by apply (bool_decide_unpack _)|].
  split.
  { intros m1 m2 H1 H2. unfold CLIENT_MESSAGES in H1, H2.
    rewrite !elem_of_cons, elem_of_nil in H1, H2.
    destruct H1 as [-> | [-> | [-> | [-> | [-> | []]]]]];
      destruct H2 as [-> | [-> | [-> | [-> | [-> | []]]]]];
      vm_compute; intros H; first [reflexivity | discriminate H]. }
  split; [reflexivity|]. split; [apply parseResponse_no_text|]. split.
  { intros text Text Parse. rewrite (parseResponse_text _ _ _ text Text).
    unfold parseJson. by rewrite Parse. }
  split.
  { intros text parsed Text Parse Invalid.
    rewrite (parseResponse_text _ _ _ text Text). unfold parseJson.
    rewrite Parse. cbn [orThrow]. by apply validateResponse_invalid. }
  intros text parsed good bad rest Text Parse Words Good Bad.
  rewrite (parseResponse_text _ _ _ text Text). unfold parseJson.
  rewrite Parse. cbn [orThrow].
  assert (Valid : isValidResponse parsed = true).
  { unfold isValidResponse, hasProperty. rewrite Words.
    destruct parsed; try discriminate Words. reflexivity. }
  rewrite (validateResponse_valid _ _ _ Valid Words).
  rewrite (mapThrow_first_throw _ good bad rest (ClaudeLlmError INVALID_ENTRY));
    [reflexivity | exact Good | by apply validateWordEntry_missing].
Qed.

Lemma parser_rejections_witness :
  firstText notJsonReply = Some (js "not json")
  /\ parsesOnly unprintableText unprintableJson (extractJson (js "not json")) = None
  /\ parseResponse Z_toString (parsesOnly unprintableText unprintableJson) notJsonReply
     = inl (ClaudeLlmError PARSE_FAILURE).
Proof.
  split; [reflexivity|]. split; [reflexivity|].
  pose proof (parser_rejections Z_toString (parsesOnly unprintableText unprintableJson)
                notJsonReply)
    as (_ & _ & _ & _ & _ & _ & Hparse & _).
  exact (Hparse (js "not json") eq_refl eq_refl).
Defined.

(** C8, as stated, fails: for the reply
    [{"words":[{"word":{"toString":null},"grammaticalForm":"noun","meanings":[]}]}]
    every stage up to the entry check passes, [String(e.word)] throws, and
    what leaves the parser is a [TypeError], with none of the four messages. *)
Lemma parser_throws_type_error :
  firstText unprintableReply = Some unprintableText
  /\ extractJson unprintableText = unprintableText
  /\ isValidResponse unprintableJson = true
  /\ parseResponse Z_toString (parsesOnly unprintableText unprintableJson)
       unprintableReply
     = inl (TypeError NOT_PRIMITIVE)
  /\ (TypeError NOT_PRIMITIVE
      ∉ [ClaudeLlmError EMPTY_RESPONSE; ClaudeLlmError PARSE_FAILURE;
         ClaudeLlmError INVALID_STRUCTURE; ClaudeLlmError INVALID_ENTRY])
  /\ ClaudeLlmClient_translateSutra Z_toString
       (parsesOnly unprintableText unprintableJson) (inr unprintableReply)
     = inl (ClaudeLlmError (FAILED_TO_TRANSLATE ++ NOT_PRIMITIVE)).
Proof.
  split; [reflexivity|]. split; [by vm_compute|]. split; [reflexivity|].
  split; [by vm_compute|]. split; [|by vm_compute].
  intros H. rewrite !elem_of_cons, elem_of_nil in H.
  destruct H as [H | [H | [H | [H | []]]]]; discriminate H.
Qed.

(* ===================================================================== *)
(** * Further properties of the reply parser *)
(* ===================================================================== *)

Lemma startsWith_app (prefix rest : jsstring) : startsWith prefix (prefix ++ rest) = true.
Proof. induction prefix as [|p prefix IH]; simpl; [done|]. by rewrite N.eqb_refl. Qed.

Lemma startsWith_FENCE_false (u : N) (s : jsstring) :
  u <> BACKTICK -> startsWith FENCE (u :: s) = false.
Proof.
  intros Hne. change FENCE with [BACKTICK; BACKTICK; BACKTICK]. cbn [startsWith].
  destruct (N.eqb_spec BACKTICK u) as [<-|_]; done.
Qed.

Lemma startsWith_FENCE_nil : startsWith FENCE [] = false.
Proof. reflexivity. Qed.

Lemma afterFirst_FENCE (prose rest : jsstring) :
  BACKTICK ∉ prose -> afterFirst FENCE (prose ++ FENCE ++ rest) = Some rest.
Proof.
  induction prose as [|u prose IH]; intros Hnot.
  - change ([] ++ FENCE ++ rest) with (FENCE ++ rest).
    destruct (FENCE ++ rest) as [|v tail] eqn:E; [discriminate E|].
    cbn [afterFirst]. rewrite <- E, startsWith_app, drop_app_length. by destruct (FENCE ++ rest).
  - apply not_elem_of_cons in Hnot as [Hne Hnot].
    change ((u :: prose) ++ FENCE ++ rest) with (u :: (prose ++ FENCE ++ rest)).
    cbn [afterFirst]. rewrite startsWith_FENCE_false by done. by apply IH.
Qed.

Lemma beforeFirst_FENCE (payload rest : jsstring) :
  BACKTICK ∉ payload -> beforeFirst FENCE (payload ++ FENCE ++ rest) = Some payload.
Proof.
  induction payload as [|u payload IH]; intros Hnot.
  - change ([] ++ FENCE ++ rest) with (FENCE ++ rest).
    destruct (FENCE ++ rest) as [|v tail] eqn:E; [discriminate E|].
    cbn [beforeFirst]. by rewrite <- E, startsWith_app.
  - apply not_elem_of_cons in Hnot as [Hne Hnot].
    change ((u :: payload) ++ FENCE ++ rest) with (u :: (payload ++ FENCE ++ rest)).
    cbn [beforeFirst]. rewrite startsWith_FENCE_false by done. by rewrite IH.
Qed.

Lemma afterFirst_FENCE_none (text : jsstring) :
  BACKTICK ∉ text -> afterFirst FENCE text = None.
Proof.
  induction text as [|u text IH]; intros Hnot; [reflexivity|].
  apply not_elem_of_cons in Hnot as [Hne Hnot].
  cbn [afterFirst]. rewrite startsWith_FENCE_false by done. by apply IH.
Qed.

Lemma trimStart_before_FENCE (payload rest : jsstring) :
  trimStart (payload ++ FENCE ++ rest) = trimStart payload ++ FENCE ++ rest.
Proof.
  induction payload as [|u payload IH]; [reflexivity|].
  change ((u :: payload) ++ FENCE ++ rest) with (u :: (payload ++ FENCE ++ rest)).
  cbn [trimStart]. by destruct (isWhiteSpace u).
Qed.

Lemma trimStart_idempotent (s : jsstring) : trimStart (trimStart s) = trimStart s.
Proof.
  induction s as [|u s IH]; [reflexivity|]. cbn [trimStart].
  destruct (isWhiteSpace u) eqn:W; [exact IH|]. cbn [trimStart]. by rewrite W.
Qed.

Lemma trimStart_keeps_out (c : N) (s : jsstring) : c ∉ s -> c ∉ trimStart s.
Proof.
  induction s as [|u s IH]; [done|]. intros Hnot. cbn [trimStart].
  destruct (isWhiteSpace u); [|done].
  apply IH. by apply not_elem_of_cons in Hnot as [_ ?].
Qed.

Lemma startsWith_json_before_FENCE (payload rest : jsstring) :
  startsWith (js "json") (payload ++ FENCE ++ rest) = startsWith (js "json") payload.
Proof.
  destruct payload as [|u1 [|u2 [|u3 [|u4 payload]]]]; cbn;
    repeat match goal with
           | |- context [(?a =? ?b)] => destruct (N.eqb_spec a b); cbn; try done
           end.
Qed.

Lemma extractJson_no_fence (text : jsstring) :
  BACKTICK ∉ text -> extractJson text = trim text.
Proof.
  intros Hnot. unfold extractJson, codeBlockMatch.
  by rewrite afterFirst_FENCE_none.
Qed.

Lemma extractJson_fenced (prose opened payload tail : jsstring) :
  BACKTICK ∉ prose -> BACKTICK ∉ payload ->
  (if startsWith (js "json") opened then drop 4 opened else opened)
  = payload ++ FENCE ++ tail ->
  afterFirst FENCE (prose ++ FENCE ++ opened) = Some opened ->
  extractJson (prose ++ FENCE ++ opened) = trim payload.
Proof.
  intros Hprose Hpayload Htagged Hafter. unfold extractJson, codeBlockMatch.
  rewrite Hafter, Htagged, trimStart_before_FENCE.
  rewrite beforeFirst_FENCE by by apply trimStart_keeps_out.
  unfold trim. by rewrite trimStart_idempotent.
Qed.

(** X1.  A payload inside a code fence, with or without the [json] tag and
    with any prose around the fence, is extracted as the payload alone: when
    neither the prose before the fence nor the payload contains a backtick,
    the fenced text and the bare payload give the same JSON text, and so the
    same result of [parseResponse]. *)
Theorem fenced_payload_equals_raw {Number : Type}
    (Number_toString : Number -> jsstring)
    (JSON_parse : jsstring -> option (JsValue Number))
    (prose payload tail : jsstring) :
  let tagged := prose ++ FENCE ++ js "json" ++ payload ++ FENCE ++ tail in
  let untagged := prose ++ FENCE ++ payload ++ FENCE ++ tail in
  let reply text := {| content := Some [TextBlock text] |} in
  (BACKTICK ∉ prose) -> (BACKTICK ∉ payload) ->
  extractJson payload = trim payload
  /\ extractJson tagged = trim payload
  /\ parseResponse Number_toString JSON_parse (reply tagged)
     = parseResponse Number_toString JSON_parse (reply payload)
  /\ (startsWith (js "json") payload = false ->
      extractJson untagged = trim payload
      /\ parseResponse Number_toString JSON_parse (reply untagged)
         = parseResponse Number_toString JSON_parse (reply payload)).
Proof.
  cbn zeta. intros Hprose Hpayload.
  assert (Hraw : extractJson payload = trim payload) by by apply extractJson_no_fence.
  assert (Htagged : extractJson (prose ++ FENCE ++ js "json" ++ payload ++ FENCE ++ tail)
                    = trim payload).
  { apply (extractJson_fenced prose (js "json" ++ payload ++ FENCE ++ tail) payload tail);
      [done | done | | by apply afterFirst_FENCE].
    by rewrite startsWith_app. }
  split; [done|]. split; [done|]. split.
  { rewrite (parseResponse_text _ _ {| content := Some [TextBlock _] |} _ eq_refl).
    rewrite (parseResponse_text _ _ {| content := Some [TextBlock payload] |} _ eq_refl).
    by rewrite Htagged, Hraw. }
  intros Hnojson.
  assert (Huntagged : extractJson (prose ++ FENCE ++ payload ++ FENCE ++ tail)
                      = trim payload).
  { apply (extractJson_fenced prose (payload ++ FENCE ++ tail) payload tail);
      [done | done | | by apply afterFirst_FENCE].
    by rewrite startsWith_json_before_FENCE, Hnojson. }
  split; [done|].
  rewrite (parseResponse_text _ _ {| content := Some [TextBlock _] |} _ eq_refl).
  rewrite (parseResponse_text _ _ {| content := Some [TextBlock payload] |} _ eq_refl).
  by rewrite Huntagged, Hraw.
Qed.

Lemma fenced_payload_equals_raw_witness :
  (BACKTICK ∉ js "Here you go: ") /\ (BACKTICK ∉ unprintableText)
  /\ extractJson (js "Here you go: " ++ FENCE ++ js "json" ++ unprintableText
                  ++ FENCE ++ js " Done.")
     = trim unprintableText.
Proof.
  assert (H1 : BACKTICK ∉ js "Here you go: ") by by apply (bool_decide_unpack _).
  assert (H2 : BACKTICK ∉ unprintableText) by by apply (bool_decide_unpack _).
  split; [exact H1|]. split; [exact H2|].
  exact (proj1 (proj2 (fenced_payload_equals_raw Z_toString
                         (parsesOnly unprintableText unprintableJson)
                         (js "Here you go: ") unprintableText (js " Done.") H1 H2))).
Defined.

Lemma firstText_skips (skipped : list ContentBlock) (text : jsstring)
    (rest : list ContentBlock) :
  Forall (fun block => isTextBlock block = false) skipped ->
  firstText {| content := Some (skipped ++ TextBlock text :: rest) |} = Some text.
Proof.
  unfold firstText; cbn [content]. intros Hskipped.
  induction Hskipped as [|block skipped Hblock _ IH]; [reflexivity|].
  cbn [app List.find]. by rewrite Hblock.
Qed.

(** X2.  Only the first text block of a reply is read: blocks of other types
    before it and every block after it, text or not, leave the result of
    [parseResponse] unchanged. *)
Theorem only_first_text_block_is_read {Number : Type}
    (Number_toString : Number -> jsstring)
    (JSON_parse : jsstring -> option (JsValue Number))
    (skipped : list ContentBlock) (text : jsstring) (rest : list ContentBlock) :
  Forall (fun block => isTextBlock block = false) skipped ->
  parseResponse Number_toString JSON_parse
    {| content := Some (skipped ++ TextBlock text :: rest) |}
  = parseResponse Number_toString JSON_parse {| content := Some [TextBlock text] |}.
Proof.
  intros Hskipped.
  rewrite (parseResponse_text _ _ _ text (firstText_skips skipped text rest Hskipped)).
  by rewrite (parseResponse_text _ _ {| content := Some [TextBlock text] |} text eq_refl).
Qed.

Lemma only_first_text_block_is_read_witness :
  Forall (fun block => isTextBlock block = false) [NonTextBlock]
  /\ parseResponse Z_toString (parsesOnly unprintableText unprintableJson)
       {| content := Some ([NonTextBlock] ++ TextBlock (js "not json")
                           :: [TextBlock unprintableText]) |}
     = parseResponse Z_toString (parsesOnly unprintableText unprintableJson)
         {| content := Some [TextBlock (js "not json")] |}.
Proof.
  assert (H : Forall (fun block => isTextBlock block = false) [NonTextBlock])
    by (constructor; [reflexivity | constructor]).
  split; [exact H|].
  exact (only_first_text_block_is_read Z_toString
           (parsesOnly unprintableText unprintableJson)
           [NonTextBlock] (js "not json") [TextBlock unprintableText] H).
Defined.

Section ParserRoundTrip.
Context {Number : Type} (Number_toString : Number -> jsstring).

Lemma mapThrow_ToString_strings (ms : list jsstring) :
  mapThrow (ToString Number_toString) (map JString ms) = inr ms.
Proof. induction ms as [|m ms IH]; [reflexivity|]. cbn. by rewrite IH. Qed.

Lemma validateWordEntry_encode (e : WordEntry) :
  threeFieldEntry e ->
  validateWordEntry Number_toString (encodeWordEntry e) = inr e.
Proof.
  intros ([g Hg] & Hdefs & Hnote). destruct e as [w gf ms defs note].
  cbn in Hg, Hdefs, Hnote. subst gf defs note.
  unfold validateWordEntry, encodeWordEntry. cbn [word grammaticalForm meanings].
  change (hasProperty (js "word") (JObject ?p)) with true.
  change (hasProperty (js "grammaticalForm") (JObject ?p)) with true.
  change (hasProperty (js "meanings") (JObject ?p)) with true.
  cbn [typeofObject isNull negb orb].
  change (getProperty (js "word") (JObject ?p)) with (Some (JString (Number:=Number) w)).
  change (getProperty (js "grammaticalForm") (JObject ?p))
    with (Some (JString (Number:=Number) g)).
  change (getProperty (js "meanings") (JObject ?p))
    with (Some (JArray (Number:=Number) (map JString ms))).
  cbn [StringOf ToString orThrow]. by rewrite mapThrow_ToString_strings.
Qed.

Lemma mapThrow_validate_encode (entries : list WordEntry) :
  Forall threeFieldEntry entries ->
  mapThrow (validateWordEntry Number_toString) (map encodeWordEntry entries)
  = inr entries.
Proof.
  induction 1 as [|e entries He _ IH]; [reflexivity|].
  cbn [map mapThrow]. rewrite validateWordEntry_encode by done.
  cbn [orThrow]. by rewrite IH.
Qed.

Lemma validateResponse_encode (entries : list WordEntry) :
  Forall threeFieldEntry entries ->
  validateResponse Number_toString (encodeReply entries)
  = inr {| llm_words := entries; llm_alternativeTranslations := None |}.
Proof.
  intros Hentries.
  rewrite (validateResponse_valid Number_toString (encodeReply entries)
             (map encodeWordEntry entries)) by reflexivity.
  by rewrite mapThrow_validate_encode.
Qed.

Lemma coercedEntry_threeFieldEntry (entry : JsValue Number) (w : WordEntry) :
  coercedEntry Number_toString entry w -> threeFieldEntry w.
Proof.
  intros (_ & _ & _ & _ & (g & _ & Hg) & _ & Hdefs & Hnote).
  split; [by exists g | done].
Qed.
End ParserRoundTrip.

(** X3.  Decoding undoes encoding: the JSON object the prompt asks for, built
    from entries that have a grammatical form and no other optional field, is
    validated to exactly those entries, in order.  What [validateResponse]
    returns is always of that kind, so encoding its output and validating
    again returns the same output. *)
Theorem validate_encode_round_trip {Number : Type}
    (Number_toString : Number -> jsstring) :
  (forall entries,
     Forall threeFieldEntry entries ->
     validateResponse Number_toString (encodeReply entries)
     = inr {| llm_words := entries; llm_alternativeTranslations := None |})
  /\ (forall parsed response,
        validateResponse Number_toString parsed = inr response ->
        validateResponse Number_toString (encodeReply (llm_words response))
        = inr response).
Proof.
  split; [apply validateResponse_encode|].
  intros parsed response H.
  destruct (isValidResponse parsed) eqn:Valid;
    [|by rewrite validateResponse_invalid in H].
  destruct (isValidResponse_words parsed Valid) as [elements Words].
  rewrite (validateResponse_valid Number_toString parsed elements Valid Words) in H.
  destruct (mapThrow (validateWordEntry Number_toString) elements) as [e|ws] eqn:Ws;
    cbn [orThrow] in H; [discriminate|].
  injection H as <-. cbn [llm_words].
  apply validateResponse_encode. apply mapThrow_fulfilled in Ws.
  clear Words Valid. induction Ws as [|entry w elements ws Hw _ IH]; constructor;
    [|exact IH].
  eapply coercedEntry_threeFieldEntry. by apply validateWordEntry_fulfilled.
Qed.

Lemma validate_encode_round_trip_witness :
  exists response,
    validateResponse Z_toString omReplyJson = inr response
    /\ validateResponse Z_toString (encodeReply (llm_words response)) = inr response.
Proof.
  eexists. split; [reflexivity|].
  exact (proj2 (validate_encode_round_trip Z_toString) omReplyJson _ eq_refl).
Defined.

Section Convertible.
Context {Number : Type} (Number_toString : Number -> jsstring).

Lemma joinElements_fulfilled (toString : JsValue Number -> Thrown + jsstring)
    (l : list (JsValue Number)) :
  Forall (fun x => isFulfilled (toString x) = convertible x) l ->
  isFulfilled (joinElements toString l) = forallb convertible l.
Proof.
  induction 1 as [|x rest Hx _ IH]; [reflexivity|].
  cbn [joinElements forallb]. fold (joinElements toString).
  assert (Hfirst : isFulfilled (match x with JNull => inr [] | _ => toString x end)
                   = convertible x) by (destruct x; try exact Hx; reflexivity).
  destruct (match x with JNull => inr [] | _ => toString x end) as [e|first];
    cbn [orThrow isFulfilled] in *; rewrite <- Hfirst; cbn [andb]; [reflexivity|].
  destruct rest as [|y rest']; [reflexivity|].
  rewrite <- IH.
  by destruct (joinElements toString (y :: rest')).
Qed.

(** [String(v)] returns exactly for the convertible values. *)
Lemma ToString_fulfilled (v : JsValue Number) :
  isFulfilled (ToString Number_toString v) = convertible v.
Proof.
  induction v as [| b | n | s | elements IH | properties]
    using JsValue_elements_ind; try reflexivity.
  - by destruct b.
  - cbn [ToString convertible]. by apply joinElements_fulfilled.
  - cbn [ToString convertible].
    by destruct (getOwn (js "toString") properties).
Qed.

Lemma ToString_convertible (v : JsValue Number) :
  convertible v = true -> exists s, ToString Number_toString v = inr s.
Proof.
  intros H. rewrite <- ToString_fulfilled in H.
  destruct (ToString Number_toString v) as [e|s]; [discriminate|]. by exists s.
Qed.

Lemma StringOf_convertible (key : jsstring) (entry : JsValue Number) :
  key ∈ REQUIRED_KEYS -> convertibleEntry entry ->
  exists s, StringOf Number_toString (getProperty key entry) = inr s.
Proof.
  intros Hkey Hentry. destruct (getProperty key entry) as [v|] eqn:Get; cbn.
  - apply ToString_convertible. by apply (Hentry key).
  - by eexists.
Qed.

Lemma mapThrow_ToString_convertible (elements : list (JsValue Number)) :
  forallb convertible elements = true ->
  exists ms, mapThrow (ToString Number_toString) elements = inr ms.
Proof.
  induction elements as [|x rest IH]; cbn [forallb mapThrow]; [by eexists|].
  intros H. apply andb_true_iff in H as [Hx Hrest].
  destruct (ToString_convertible x Hx) as [s ->]. destruct (IH Hrest) as [ms ->].
  by eexists.
Qed.

Lemma validateWordEntry_convertible (entry : JsValue Number) (e : Thrown) :
  convertibleEntry entry ->
  validateWordEntry Number_toString entry = inl e ->
  e = ClaudeLlmError INVALID_ENTRY.
Proof.
  intros Hentry. unfold validateWordEntry.
  destruct (negb (typeofObject entry) || isNull entry
            || negb (hasProperty (js "word") entry)
            || negb (hasProperty (js "grammaticalForm") entry)
            || negb (hasProperty (js "meanings") entry));
    [by intros [= <-]|].
  destruct (StringOf_convertible (js "word") entry) as [w ->];
    [unfold REQUIRED_KEYS; set_solver | done |].
  destruct (StringOf_convertible (js "grammaticalForm") entry) as [g ->];
    [unfold REQUIRED_KEYS; set_solver | done |].
  cbn [orThrow].
  destruct (StringOf_convertible (js "meanings") entry) as [m Hm];
    [unfold REQUIRED_KEYS; set_solver | done |].
  destruct (getProperty (js "meanings") entry) as [[| | | |elements|]|] eqn:M;
    try (rewrite Hm; discriminate).
  assert (Hels : forallb convertible elements = true).
  { apply (Hentry (js "meanings") (JArray elements)); [|done].
    unfold REQUIRED_KEYS; set_solver. }
  destruct (mapThrow_ToString_convertible elements Hels) as [ms ->]. discriminate.
Qed.
End Convertible.

(** X4.  [String(v)] returns exactly when no object that the conversion
    reaches, through arrays, has a [toString] key of its own.  For a reply
    whose entries have such values under [word], [grammaticalForm] and
    [meanings], the parser rejects with one of its four fixed
    [ClaudeLlmError] messages and with nothing else. *)
Theorem convertible_reply_rejections {Number : Type}
    (Number_toString : Number -> jsstring)
    (JSON_parse : jsstring -> option (JsValue Number)) (response : Message) :
  (forall v, isFulfilled (ToString Number_toString v) = convertible v)
  /\ ((forall text parsed elements,
         firstText response = Some text ->
         JSON_parse (extractJson text) = Some parsed ->
         getProperty (js "words") parsed = Some (JArray elements) ->
         Forall convertibleEntry elements) ->
      forall error,
        parseResponse Number_toString JSON_parse response = inl error ->
        exists message,
          error = ClaudeLlmError message
          /\ message ∈ [EMPTY_RESPONSE; PARSE_FAILURE; INVALID_STRUCTURE; INVALID_ENTRY]).
Proof.
  split; [apply ToString_fulfilled|].
  intros Hconv error.
  destruct (firstText response) as [text|] eqn:Text.
  - rewrite (parseResponse_text _ _ response text Text). unfold parseJson.
    destruct (JSON_parse (extractJson text)) as [parsed|] eqn:Parse; cbn [orThrow].
    + destruct (isValidResponse parsed) eqn:Valid.
      * destruct (isValidResponse_words parsed Valid) as [elements Words].
        rewrite (validateResponse_valid _ parsed elements Valid Words).
        destruct (mapThrow (validateWordEntry Number_toString) elements)
          as [e|ws] eqn:Ws; cbn [orThrow]; [|discriminate].
        intros [= <-]. apply mapThrow_rejected in Ws as (entry & Hin & Hentry).
        pose proof (Hconv text parsed elements eq_refl Parse Words) as Hall.
        rewrite Forall_forall in Hall.
        apply validateWordEntry_convertible in Hentry; [|by apply Hall].
        subst e. eexists. split; [reflexivity | set_solver].
      * rewrite validateResponse_invalid by done. intros [= <-].
        eexists. split; [reflexivity | set_solver].
    + intros [= <-]. eexists. split; [reflexivity | set_solver].
  - rewrite parseResponse_no_text by done. intros [= <-].
    eexists. split; [reflexivity | set_solver].
Qed.

Lemma convertible_reply_rejections_witness :
  Forall convertibleEntry [wordOnlyEntryJson]
  /\ parseResponse Z_toString (parsesOnly wordOnlyText wordOnlyJson) wordOnlyReply
     = inl (ClaudeLlmError INVALID_ENTRY)
  /\ exists message,
       ClaudeLlmError INVALID_ENTRY = ClaudeLlmError message
       /\ message ∈ [EMPTY_RESPONSE; PARSE_FAILURE; INVALID_STRUCTURE; INVALID_ENTRY].
Proof.
  assert (Entry : Forall (@convertibleEntry Z) [wordOnlyEntryJson]).
  { constructor; [|constructor].
    intros key v Key Value. unfold REQUIRED_KEYS in Key.
    rewrite !elem_of_cons, elem_of_nil in Key.
    destruct Key as [->|[->|[->|[]]]];
      [injection Value as <-; reflexivity | discriminate Value | discriminate Value]. }
  split; [exact Entry|]. split; [reflexivity|].
  apply (proj2 (convertible_reply_rejections Z_toString
                  (parsesOnly wordOnlyText wordOnlyJson) wordOnlyReply)).
  - intros text parsed elements Text Parse Words.
    injection Text as <-.
    change (parsesOnly wordOnlyText wordOnlyJson (extractJson wordOnlyText))
      with (Some wordOnlyJson) in Parse.
    injection Parse as <-. injection Words as <-. exact Entry.
  - reflexivity.
Defined.

(** X5.  Whatever the API call or the parser throws, [translateSutra] of the
    client rejects with a [ClaudeLlmError] and nothing else; a
    [ClaudeLlmError] passes through with its message unchanged, so wrapping
    twice is the same as wrapping once, and a reply the parser accepts is
    returned as parsed. *)
Theorem client_rejects_with_ClaudeLlmError {Number : Type}
    (Number_toString : Number -> jsstring)
    (JSON_parse : jsstring -> option (JsValue Number)) (created : Thrown + Message) :
  let client := ClaudeLlmClient_translateSutra Number_toString JSON_parse in
  (forall error, client created = inl error -> exists message, error = ClaudeLlmError message)
  /\ (forall message,
        created = inl (ClaudeLlmError message) ->
        client created = inl (ClaudeLlmError message))
  /\ (forall error, rethrow (rethrow error) = rethrow error)
  /\ (forall response parsed,
        created = inr response ->
        parseResponse Number_toString JSON_parse response = inr parsed ->
        client created = inr parsed).
Proof.
  cbn zeta. unfold ClaudeLlmClient_translateSutra. split; [|split; [|split]].
  - intros error.
    destruct (attempt response <- created;
              parseResponse Number_toString JSON_parse response) as [e|ok];
      [|discriminate].
    intros [= <-]. destruct e; cbn [rethrow]; by eexists.
  - by intros message ->.
  - by intros [].
  - intros response parsed -> Hparsed. cbn [orThrow]. by rewrite Hparsed.
Qed.

Lemma client_rejects_with_ClaudeLlmError_witness :
  ClaudeLlmClient_translateSutra Z_toString (parsesOnly unprintableText unprintableJson)
    (inl (ClaudeLlmError (js "rate limited")))
  = inl (ClaudeLlmError (js "rate limited")).
Proof.
  exact (proj1 (proj2 (client_rejects_with_ClaudeLlmError Z_toString
                         (parsesOnly unprintableText unprintableJson)
                         (inl (ClaudeLlmError (js "rate limited")))))
           (js "rate limited") eq_refl).
Defined.

(** X6.  Constructing the client yields the key it will use exactly when that
    key is not empty and is the one passed, or, with none passed, the one of
    the environment.  A key that is passed always hides the environment: an
    empty one makes construction fail even when the environment has a key.
    The only failure is the [ClaudeLlmError] that asks for the key. *)
Theorem constructor_resolves_api_key (apiKey env : option jsstring) :
  (forall key,
     ClaudeLlmClient_constructor apiKey env = inr key <->
     key <> [] /\ (apiKey = Some key \/ (apiKey = None /\ env = Some key)))
  /\ ClaudeLlmClient_constructor (Some []) env = inl (ClaudeLlmError API_KEY_REQUIRED)
  /\ (forall error,
        ClaudeLlmClient_constructor apiKey env = inl error ->
        error = ClaudeLlmError API_KEY_REQUIRED).
Proof.
  unfold ClaudeLlmClient_constructor. split; [|split; [reflexivity|]].
  - intros key. destruct apiKey as [[|u k]|], env as [[|v e]|]; cbn;
      split; try (intros [= <-]); try (intros [Hne [[= <-] | [[=] [= <-]]]]);
      try done; try (split; [done | auto]);
      try (intros [Hne [H | [H1 H2]]]; simplify_eq).
  - intros error. destruct apiKey as [[|u k]|], env as [[|v e]|]; cbn;
      intros H; by simplify_eq.
Qed.

Lemma constructor_resolves_api_key_witness :
  js "sk-1" <> []
  /\ ClaudeLlmClient_constructor None (Some (js "sk-1")) = inr (js "sk-1").
Proof.
  split; [discriminate|].
  apply (proj1 (constructor_resolves_api_key None (Some (js "sk-1")))).
  split; [discriminate | right; by split].
Defined.

(* ===================================================================== *)
(** * Further properties of [trim], [split] and [normalizeToLines] *)
(* ===================================================================== *)

Lemma trimStart_nil_iff (s : jsstring) :
  trimStart s = [] <-> Forall (fun u => isWhiteSpace u = true) s.
Proof.
  induction s as [|u s IH]; cbn [trimStart]; [by split; [constructor|]|].
  destruct (isWhiteSpace u) eqn:W.
  - rewrite IH. split; [by constructor | by inversion 1].
  - split; [discriminate|]. inversion 1; congruence.
Qed.

Lemma trimStart_head (s : jsstring) (u : N) (t : jsstring) :
  trimStart s = u :: t -> isWhiteSpace u = false.
Proof.
  induction s as [|v s IH]; cbn [trimStart]; [discriminate|].
  destruct (isWhiteSpace v) eqn:W; [exact IH|]. by intros [= <- _].
Qed.

Lemma trimStart_suffix (s : jsstring) : exists blanks,
  s = blanks ++ trimStart s /\ Forall (fun u => isWhiteSpace u = true) blanks.
Proof.
  induction s as [|u s (blanks & Hs & Hblanks)]; [by exists []|]. cbn [trimStart].
  destruct (isWhiteSpace u) eqn:W.
  - exists (u :: blanks). split; [by rewrite Hs at 1 | by constructor].
  - by exists [].
Qed.

(** A text trims to nothing exactly when it is white space only. *)
Lemma trim_nil_iff (s : jsstring) :
  trim s = [] <-> Forall (fun u => isWhiteSpace u = true) s.
Proof.
  unfold trim, trimEnd.
  destruct (trimStart_suffix s) as (blanks & Hs & Hblanks).
  split.
  - intros H. apply (f_equal reverse) in H. rewrite reverse_involutive in H.
    cbn in H. apply trimStart_nil_iff in H. rewrite Forall_reverse in H.
    destruct (trimStart s) as [|u t] eqn:E.
    + by apply trimStart_nil_iff.
    + apply trimStart_head in E. inversion H; congruence.
  - intros H. apply trimStart_nil_iff in H. by rewrite H.
Qed.

Lemma split_elements (sep : N) (s piece : jsstring) (u : N) :
  piece ∈ split sep s -> u ∈ piece -> u ∈ s.
Proof.
  revert piece. induction s as [|v s IH]; cbn [split]; intros piece Hpiece Hu.
  - apply list_elem_of_singleton in Hpiece as ->. by apply elem_of_nil in Hu.
  - destruct (N.eqb_spec v sep) as [->|_].
    + apply elem_of_cons in Hpiece as [->|Hpiece]; [by apply elem_of_nil in Hu|].
      right. by eapply IH.
    + destruct (split sep s) as [|p ps]; [|].
      * apply list_elem_of_singleton in Hpiece as ->.
        apply list_elem_of_singleton in Hu as ->. by left.
      * apply elem_of_cons in Hpiece as [->|Hpiece].
        -- apply elem_of_cons in Hu as [->|Hu]; [by left|].
           right. eapply IH; [by left | done].
        -- right. eapply IH; [by right | done].
Qed.

Lemma split_covers (sep : N) (s : jsstring) (u : N) :
  u ∈ s -> u <> sep -> exists piece, piece ∈ split sep s /\ u ∈ piece.
Proof.
  induction s as [|v s IH]; intros Hu Hne; [by apply elem_of_nil in Hu|].
  cbn [split]. pose proof (split_nonempty sep s) as Hnonempty.
  apply elem_of_cons in Hu as [->|Hu].
  - destruct (N.eqb_spec v sep) as [->|_]; [done|].
    destruct (split sep s) as [|p ps]; [done|].
    exists (v :: p). split; by left.
  - destruct (IH Hu Hne) as (piece & Hpiece & Hin).
    destruct (N.eqb_spec v sep) as [->|_].
    + exists piece. split; [by right | done].
    + destruct (split sep s) as [|p ps]; [done|].
      apply elem_of_cons in Hpiece as [->|Hpiece].
      * exists (v :: p). split; [by left | by right].
      * exists piece. split; [by right | done].
Qed.

Lemma split_join (sep : N) (pieces : list jsstring) :
  pieces <> [] -> Forall (fun piece => sep ∉ piece) pieces ->
  split sep (join sep pieces) = pieces.
Proof.
  intros Hne Hpieces. induction Hpieces as [|p rest Hp Hrest IH]; [done|].
  destruct rest as [|q rest].
  - cbn [join]. by apply split_no_separator.
  - change (join sep (p :: q :: rest)) with (p ++ sep :: join sep (q :: rest)).
    rewrite split_at_separator by done. by rewrite IH.
Qed.

Lemma split_app_separator (sep : N) (a b : jsstring) :
  split sep (a ++ sep :: b) = split sep a ++ split sep b.
Proof.
  induction a as [|u a IH]; cbn [app split].
  - by rewrite N.eqb_refl.
  - rewrite IH. pose proof (split_nonempty sep a) as Hne.
    destruct (u =? sep); [done|]. by destruct (split sep a).
Qed.

Lemma filter_fixed {A} (P : A -> Prop) `{!forall x, Decision (P x)} (l : list A) :
  Forall P l -> filter P l = l.
Proof.
  induction 1 as [|x l Hx _ IH]; [done|]. by rewrite filter_cons_True, IH.
Qed.

Lemma normalizeToLines_pieces (text : jsstring) :
  Forall (fun line => LF ∉ line) (normalizeToLines text)
  /\ Forall (fun line => (0 < length (trim line))%nat) (normalizeToLines text).
Proof.
  unfold normalizeToLines. split; apply Forall_forall; intros line Hline;
    apply list_elem_of_filter in Hline as [Hkept Hin]; [|done].
  pose proof (split_pieces LF text) as Hpieces.
  rewrite Forall_forall in Hpieces. by apply Hpieces.
Qed.

Lemma blank_or_not (line : jsstring) :
  Forall (fun u => isWhiteSpace u = true) line
  \/ exists u, u ∈ line /\ isWhiteSpace u = false.
Proof.
  induction line as [|u line [IH|(v & Hv & Hw)]].
  - left. constructor.
  - destruct (isWhiteSpace u) eqn:W; [left; by constructor|].
    right. exists u. split; [by left | done].
  - right. exists v. split; [by right | done].
Qed.

Lemma nonblank_exists (line : jsstring) :
  trim line <> [] <-> exists u, u ∈ line /\ isWhiteSpace u = false.
Proof.
  rewrite trim_nil_iff. split.
  - intros Hnot. by destruct (blank_or_not line) as [Hblank|Hsome].
  - intros (u & Hu & Hw) Hblank. rewrite Forall_forall in Hblank.
    rewrite (Hblank u Hu) in Hw. discriminate.
Qed.

(** X7.  A line is kept exactly when it has a code unit that is not white
    space, so the result is the empty array exactly for the texts of white
    space only (line feeds are white space), the empty text among them. *)
Theorem normalizeToLines_empty_iff_blank (text : jsstring) :
  (forall line,
     line ∈ normalizeToLines text <->
     line ∈ split LF text /\ exists u, u ∈ line /\ isWhiteSpace u = false)
  /\ (normalizeToLines text = [] <-> Forall (fun u => isWhiteSpace u = true) text)
  /\ normalizeToLines [] = [].
Proof.
  assert (Hkept : forall line,
             line ∈ normalizeToLines text <->
             line ∈ split LF text /\ exists u, u ∈ line /\ isWhiteSpace u = false).
  { intros line. unfold normalizeToLines.
    rewrite list_elem_of_filter, nonblank_iff, nonblank_exists. tauto. }
  split; [exact Hkept|]. split; [|reflexivity].
  split.
  - intros Hnil. apply Forall_forall. intros u Hu.
    destruct (isWhiteSpace u) eqn:W; [done|exfalso].
    assert (Hne : u <> LF) by (intros ->; discriminate W).
    destruct (split_covers LF text u Hu Hne) as (piece & Hpiece & Hin).
    assert (Hkeep : piece ∈ normalizeToLines text) by (apply Hkept; eauto).
    rewrite Hnil in Hkeep. by apply elem_of_nil in Hkeep.
  - intros Hblank. destruct (normalizeToLines text) as [|line rest] eqn:E; [done|].
    assert (Hline : line ∈ line :: rest) by by left.
    apply Hkept in Hline as (Hpiece & u & Hu & Hw).
    rewrite Forall_forall in Hblank.
    rewrite (Hblank u (split_elements LF text line u Hpiece Hu)) in Hw. discriminate.
Qed.

(** X8.  Normalising is stable: the kept lines joined by line feeds normalise
    to the same lines. *)
Theorem normalizeToLines_join_stable (text : jsstring) :
  normalizeToLines (join LF (normalizeToLines text)) = normalizeToLines text.
Proof.
  destruct (normalizeToLines_pieces text) as [Hpieces Hkept].
  destruct (normalizeToLines text) as [|line rest] eqn:E; [reflexivity|].
  unfold normalizeToLines at 1. rewrite split_join by done.
  by apply filter_fixed.
Qed.

(** X9.  Normalising works line feed by line feed: the lines of two texts put
    together with a line feed are the lines of the first followed by the
    lines of the second. *)
Theorem normalizeToLines_app (a b : jsstring) :
  normalizeToLines (a ++ LF :: b) = normalizeToLines a ++ normalizeToLines b.
Proof. unfold normalizeToLines. by rewrite split_app_separator, filter_app. Qed.

(* ===================================================================== *)
(** * Further properties of the detector and the normaliser *)
(* ===================================================================== *)

Lemma isDevanagari_not_surrogate (u : N) :
  isDevanagari u = true -> isLeadSurrogate u = false /\ isTrailSurrogate u = false.
Proof.
  unfold isDevanagari, isLeadSurrogate, isTrailSurrogate,
    DEVANAGARI_RANGE_START, DEVANAGARI_RANGE_END.
  intros H. apply andb_true_iff in H as [H1 H2].
  apply N.leb_le in H1, H2.
  split; apply andb_false_iff; left; apply N.leb_gt; lia.
Qed.

Lemma isDevanagari_below_astral (c : N) : 0x10000 <= c -> isDevanagari c = false.
Proof.
  unfold isDevanagari, DEVANAGARI_RANGE_START, DEVANAGARI_RANGE_END.
  intros H. apply andb_false_iff. right. apply N.leb_gt. lia.
Qed.

(** A code point of a text is one of its code units or lies above the BMP. *)
Lemma codePoints_units (s : jsstring) (c : N) :
  c ∈ codePoints s -> c ∈ s \/ 0x10000 <= c.
Proof.
  revert c.
  enough (H : (forall c, c ∈ codePoints s -> c ∈ s \/ 0x10000 <= c)
              /\ forall u c, c ∈ codePoints (u :: s) -> c ∈ u :: s \/ 0x10000 <= c)
    by apply H.
  induction s as [|v rest [IH1 IH2]].
  - split; [intros c Hc; by apply elem_of_nil in Hc|].
    intros u c Hc. by left.
  - split; [apply IH2|]. intros u c. cbn [codePoints].
    destruct (isLeadSurrogate u && isTrailSurrogate v).
    + intros Hc. apply elem_of_cons in Hc as [->|Hc]; [right; lia|].
      destruct (IH1 c Hc) as [Hin|Hhigh]; [left; by do 2 right | by right].
    + intros Hc. apply elem_of_cons in Hc as [->|Hc]; [left; by left|].
      destruct (IH2 v c Hc) as [Hin|Hhigh]; [left; by right | by right].
Qed.

(** A code unit that is no surrogate is a code point of the text. *)
Lemma units_codePoints (s : jsstring) (w : N) :
  w ∈ s -> isLeadSurrogate w = false -> isTrailSurrogate w = false ->
  w ∈ codePoints s.
Proof.
  intros Hw Hlead Htrail. revert Hw.
  enough (H : (w ∈ s -> w ∈ codePoints s)
              /\ forall u, w ∈ u :: s -> w ∈ codePoints (u :: s)) by apply H.
  induction s as [|v rest [IH1 IH2]].
  - split; [done|]. intros u Hw. exact Hw.
  - split; [apply IH2|]. intros u Hw. cbn [codePoints].
    destruct (isLeadSurrogate u && isTrailSurrogate v) eqn:Pair.
    + apply andb_true_iff in Pair as [Pu Pv].
      apply elem_of_cons in Hw as [->|Hw]; [congruence|].
      apply elem_of_cons in Hw as [->|Hw]; [congruence|].
      right. by apply IH1.
    + apply elem_of_cons in Hw as [->|Hw]; [by left|].
      right. by apply IH2.
Qed.

Lemma existsb_isDevanagari_units (text : jsstring) :
  existsb isDevanagari (codePoints text) = false
  <-> Forall (fun u => isDevanagari u = false) text.
Proof.
  split.
  - intros Hnone. apply Forall_forall. intros u Hu.
    destruct (isDevanagari u) eqn:D; [|done].
    destruct (isDevanagari_not_surrogate u D) as [Hlead Htrail].
    pose proof (units_codePoints text u Hu Hlead Htrail) as Hc.
    assert (Hsome : existsb isDevanagari (codePoints text) = true).
    { apply existsb_exists. exists u. split; [by apply list_elem_of_In | done]. }
    congruence.
  - intros Hunits. destruct (existsb isDevanagari (codePoints text)) eqn:E; [|done].
    apply existsb_exists in E as (c & Hc & D). apply list_elem_of_In in Hc.
    rewrite Forall_forall in Hunits.
    destruct (codePoints_units text c Hc) as [Hin|Hhigh].
    + rewrite (Hunits c Hin) in D. discriminate.
    + rewrite (isDevanagari_below_astral c Hhigh) in D. discriminate.
Qed.

Lemma detect_iast_iff (isLatin : N -> bool) (text : jsstring) :
  detect (ScriptDetectorImpl isLatin) text = iast
  <-> Forall (fun u => isDevanagari u = false) text.
Proof.
  rewrite detect_cases, <- existsb_isDevanagari_units.
  destruct (existsb isDevanagari (codePoints text));
    [|done]. by destruct (existsb _ (codePoints text)).
Qed.

(** X10.  Whatever the table of Latin letters, a text is classified [iast]
    exactly when none of its code units lies in U+0900-U+097F, and such a
    text passes through the normaliser unchanged, for every converter. *)
Theorem text_without_devanagari_passes_through (isLatin : N -> bool)
    (converter : ScriptConverter) (text : jsstring) :
  let detector := ScriptDetectorImpl isLatin in
  (detect detector text = iast <-> Forall (fun u => isDevanagari u = false) text)
  /\ (Forall (fun u => isDevanagari u = false) text ->
      normalize (ScriptNormalizerImpl detector converter) text = Success text iast).
Proof.
  cbn zeta. split; [apply detect_iast_iff|].
  intros Hunits. apply detect_iast_iff with (isLatin := isLatin) in Hunits.
  unfold ScriptNormalizerImpl; cbn [normalize]. rewrite Hunits.
  by rewrite !decide_False.
Qed.

Lemma text_without_devanagari_passes_through_witness :
  Forall (fun u => isDevanagari u = false) (js "atha yoga")
  /\ normalize sampleNormalizer (js "atha yoga") = Success (js "atha yoga") iast.
Proof.
  assert (H : Forall (fun u => isDevanagari u = false) (js "atha yoga"))
    by by apply (bool_decide_unpack _).
  split; [exact H|].
  exact (proj2 (text_without_devanagari_passes_through latinLetters identityConverter
                  (js "atha yoga")) H).
Defined.

(** X11.  With a converter whose output has no code unit of the Devanagari
    block, normalising is idempotent: what a successful [normalize] returns
    is classified [iast] and normalises to itself. *)
Theorem normalize_idempotent (isLatin : N -> bool) (converter : ScriptConverter)
    (text normalized : jsstring) (script : ScriptType) :
  let detector := ScriptDetectorImpl isLatin in
  let normalizer := ScriptNormalizerImpl detector converter in
  (forall t, Forall (fun u => isDevanagari u = false) (toIast converter t)) ->
  normalize normalizer text = Success normalized script ->
  detect detector normalized = iast
  /\ normalize normalizer normalized = Success normalized iast.
Proof.
  cbn zeta. intros Hconverter Hnormalize.
  assert (Hunits : Forall (fun u => isDevanagari u = false) normalized).
  { unfold ScriptNormalizerImpl in Hnormalize; cbn [normalize] in Hnormalize.
    destruct (decide (detect (ScriptDetectorImpl isLatin) text = mixed));
      [discriminate|].
    destruct (decide (detect (ScriptDetectorImpl isLatin) text = devanagari)).
    - injection Hnormalize as <- _. apply Hconverter.
    - injection Hnormalize as <- _. apply detect_iast_iff with (isLatin := isLatin).
      by destruct (detect (ScriptDetectorImpl isLatin) text). }
  pose proof (proj2 (detect_iast_iff isLatin normalized) Hunits) as Hiast.
  split; [exact Hiast|].
  unfold ScriptNormalizerImpl; cbn [normalize]. rewrite Hiast.
  by rewrite !decide_False.
Qed.

Lemma droppingConverter_no_devanagari (t : jsstring) :
  Forall (fun u => isDevanagari u = false) (toIast droppingConverter t).
Proof.
  apply Forall_forall. intros u Hu. cbn in Hu.
  apply list_elem_of_In, filter_In in Hu as [_ Hu]. by apply negb_true_iff.
Qed.

Lemma normalize_idempotent_witness :
  (forall t, Forall (fun u => isDevanagari u = false) (toIast droppingConverter t))
  /\ normalize (ScriptNormalizerImpl (ScriptDetectorImpl latinLetters) droppingConverter)
       [0x905; 0x20; 0x31] = Success [0x20; 0x31] devanagari
  /\ normalize (ScriptNormalizerImpl (ScriptDetectorImpl latinLetters) droppingConverter)
       [0x20; 0x31] = Success [0x20; 0x31] iast.
Proof.
  split; [exact droppingConverter_no_devanagari|]. split; [reflexivity|].
  exact (proj2 (normalize_idempotent latinLetters droppingConverter
                  [0x905; 0x20; 0x31] [0x20; 0x31] devanagari
                  droppingConverter_no_devanagari eq_refl)).
Defined.

(* ===================================================================== *)
(** * Further properties of the translation services *)
(* ===================================================================== *)

(** One run of the LLM-only service, by what the model answers. *)
Lemma llm_service_run (llmClient : LlmClient) (sutra : jsstring) (h : History) :
  translate (LlmTranslationService llmClient) sutra h =
    match llm_reply llmClient (atLlmCall h sutra) sutra with
    | inl error => (h ++ [LlmInvoked sutra; LlmSettled false], inl error)
    | inr llmResponse =>
        (h ++ [LlmInvoked sutra; LlmSettled true],
         inr {| originalText := normalizeToLines sutra;
                iastText := normalizeToLines sutra;
                words := llm_words llmResponse;
                alternativeTranslations := llm_alternativeTranslations llmResponse;
                warnings := None |})
    end.
Proof.
  cbn [translate LlmTranslationService]. unfold andThen, translateSutra, atLlmCall.
  destruct (llm_reply llmClient (h ++ [LlmInvoked sutra]) sutra);
    cbn; by rewrite <- app_assoc.
Qed.

(** X12.  The LLM-only service makes one call, to the model, with the text it
    was given; it rejects exactly when the model does, with the model's
    error, and otherwise returns the model's entries and alternative
    translations untouched, both text fields from the same text, and no
    warnings. *)
Theorem llm_only_service_run (llmClient : LlmClient) (sutra : jsstring) (h : History) :
  let run := translate (LlmTranslationService llmClient) sutra in
  let reply := llm_reply llmClient (atLlmCall h sutra) sutra in
  since h (history run h) = [LlmInvoked sutra; LlmSettled (isFulfilled reply)]
  /\ (forall error, settled run h = inl error <-> reply = inl error)
  /\ (forall result,
        settled run h = inr result ->
        exists llmResponse,
          reply = inr llmResponse
          /\ words result = llm_words llmResponse
          /\ alternativeTranslations result = llm_alternativeTranslations llmResponse
          /\ originalText result = normalizeToLines sutra
          /\ iastText result = originalText result
          /\ warnings result = None).
Proof.
  cbn zeta. unfold settled, history. rewrite llm_service_run.
  destruct (llm_reply llmClient (atLlmCall h sutra) sutra) as [e|llmResponse];
    cbn [fst snd isFulfilled]; rewrite since_app; (split; [reflexivity|]); split.
  - intros error. split; by intros [= <-].
  - discriminate.
  - intros error. split; discriminate.
  - intros result [= <-]. by exists llmResponse.
Qed.

Lemma llm_only_service_run_witness :
  exists result llmResponse,
    settled (translate (LlmTranslationService omLlmClient) (js "om")) [] = inr result
    /\ llm_reply omLlmClient (atLlmCall [] (js "om")) (js "om") = inr llmResponse
    /\ words result = llm_words llmResponse.
Proof.
  eexists.
  destruct (proj2 (proj2 (llm_only_service_run omLlmClient (js "om") [])) _ eq_refl)
    as (llmResponse & Hreply & Hwords & _).
  exists llmResponse. split; [reflexivity|]. split; [exact Hreply | exact Hwords].
Defined.

(** X13.  A run of the hybrid service calls the model once, with the text it
    was given, and the dictionary at most once; the lookup keys are the
    [word] fields of the model's entries, all of them, in order, duplicates
    kept.  The run rejects exactly when the model rejects: a rejected lookup
    never surfaces. *)
Theorem hybrid_calls (llmClient : LlmClient) (dictionaryClient : DictionaryClient)
    (sutra : jsstring) (h : History) :
  let run := translate (HybridTranslationService llmClient dictionaryClient) sutra in
  let events := since h (history run h) in
  let reply := llm_reply llmClient (atLlmCall h sutra) sutra in
  llmCallCount events = 1%nat
  /\ (forall text, LlmInvoked text ∈ events -> text = sutra)
  /\ (dictCallCount events <= 1)%nat
  /\ (forall keys,
        DictInvoked keys ∈ events ->
        exists llmResponse,
          reply = inr llmResponse /\ keys = map word (llm_words llmResponse))
  /\ (forall llmResponse,
        reply = inr llmResponse ->
        DictInvoked (map word (llm_words llmResponse)) ∈ events)
  /\ (forall error, settled run h = inl error <-> reply = inl error).
Proof.
  cbn zeta.
  pose proof (hybrid_run llmClient dictionaryClient sutra h) as Run; cbn zeta in Run.
  destruct Run
    as [error Llm | llmResponse error ws Llm Dict | llmResponse found ws Llm Dict];
    try subst ws; rewrite since_app, Llm;
    (split; [reflexivity|]); split.
  - intros text H. rewrite !elem_of_cons, elem_of_nil in H.
    by destruct H as [[= ->] | [[=] | []]].
  - split; [cbn; lia|]. split.
    + intros keys H. rewrite !elem_of_cons, elem_of_nil in H.
      by destruct H as [[=] | [[=] | []]].
    + split; [discriminate|]. intros error'. split; by intros [= <-].
  - intros text H. rewrite !elem_of_cons, elem_of_nil in H.
    by destruct H as [[= ->] | [[=] | [[=] | [[=] | []]]]].
  - split; [cbn; lia|]. split.
    + intros keys H. rewrite !elem_of_cons, elem_of_nil in H.
      destruct H as [[=] | [[=] | [[= ->] | [[=] | []]]]]. by exists llmResponse.
    + split; [|intros error'; split; discriminate].
      intros ? [= <-]. set_solver.
  - intros text H. rewrite !elem_of_cons, elem_of_nil in H.
    by destruct H as [[= ->] | [[=] | [[=] | [[=] | []]]]].
  - split; [cbn; lia|]. split.
    + intros keys H. rewrite !elem_of_cons, elem_of_nil in H.
      destruct H as [[=] | [[=] | [[= ->] | [[=] | []]]]]. by exists llmResponse.
    + split; [|intros error'; split; discriminate].
      intros ? [= <-]. set_solver.
Qed.

Lemma hybrid_calls_witness :
  exists llmResponse,
    llm_reply omLlmClient (atLlmCall [] (js "om")) (js "om") = inr llmResponse
    /\ DictInvoked (map word (llm_words llmResponse))
       ∈ since [] (history (translate (HybridTranslationService omLlmClient
                                         failingDictionaryClient) (js "om")) []).
Proof.
  eexists. split; [reflexivity|].
  exact (proj1 (proj2 (proj2 (proj2 (proj2
           (hybrid_calls omLlmClient failingDictionaryClient (js "om") [])))))
           _ eq_refl).
Defined.

(** X14.  Whether the lookup is fulfilled or rejected, the result of the
    hybrid service carries the model's data complete: one entry per model
    entry, in order, with the model's [word], [grammaticalForm], [meanings]
    and [contextualNote], the model's alternative translations, and both text
    fields from the text given.  Only [dictionaryDefinitions] is replaced,
    also when the model had set it. *)
Theorem hybrid_keeps_model_data (llmClient : LlmClient)
    (dictionaryClient : DictionaryClient) (sutra : jsstring) (h : History)
    (llmResponse : LlmTranslationResponse) :
  let run := translate (HybridTranslationService llmClient dictionaryClient) sutra in
  llm_reply llmClient (atLlmCall h sutra) sutra = inr llmResponse ->
  exists result,
    settled run h = inr result
    /\ Forall2 (fun entry llmWord =>
                  word entry = word llmWord
                  /\ grammaticalForm entry = grammaticalForm llmWord
                  /\ meanings entry = meanings llmWord
                  /\ contextualNote entry = contextualNote llmWord
                  /\ is_Some (dictionaryDefinitions entry))
               (words result) (llm_words llmResponse)
    /\ alternativeTranslations result = llm_alternativeTranslations llmResponse
    /\ originalText result = normalizeToLines sutra
    /\ iastText result = normalizeToLines sutra.
Proof.
  cbn zeta. intros HLlm.
  assert (Hmerged : forall dictResults,
            Forall2 (fun entry llmWord =>
                       word entry = word llmWord
                       /\ grammaticalForm entry = grammaticalForm llmWord
                       /\ meanings entry = meanings llmWord
                       /\ contextualNote entry = contextualNote llmWord
                       /\ is_Some (dictionaryDefinitions entry))
                    (mergeDefinitions dictResults (llm_words llmResponse))
                    (llm_words llmResponse)).
  { intros dictResults. unfold mergeDefinitions.
    induction (llm_words llmResponse) as [|w ws IH]; constructor; [|exact IH].
    cbn. by repeat split. }
  pose proof (hybrid_run llmClient dictionaryClient sutra h) as Run; cbn zeta in Run.
  destruct Run
    as [error' Llm | llmResponse' error' ws Llm Dict | llmResponse' found ws Llm Dict];
    try subst ws; rewrite HLlm in Llm; simplify_eq;
    eexists; (split; [reflexivity|]); cbn; by repeat split.
Qed.

Lemma hybrid_keeps_model_data_witness :
  exists result,
    settled (translate (HybridTranslationService omLlmClient failingDictionaryClient)
               (js "om")) [] = inr result
    /\ alternativeTranslations result = None
    /\ originalText result = normalizeToLines (js "om").
Proof.
  destruct (hybrid_keeps_model_data omLlmClient failingDictionaryClient (js "om") []
              {| llm_words := [omEntry]; llm_alternativeTranslations := None |} eq_refl)
    as (result & Hsettled & _ & Halt & Horiginal & _).
  exists result. split; [exact Hsettled|]. split; [exact Halt | exact Horiginal].
Defined.

(** X15.  When normalisation succeeds, the wrapper calls the delegate with
    the normalised text and adds no call of its own: the history is the
    delegate's, a rejection of the delegate is the wrapper's rejection,
    unchanged, and the words, alternative translations and warnings of the
    delegate's result are those of the wrapper's result. *)
Theorem normalizing_delegates (normalizer : ScriptNormalizer)
    (delegate : TranslationService) (sutra normalized : jsstring)
    (script : ScriptType) (h : History) :
  let run := translate (NormalizingTranslationService normalizer delegate) sutra in
  let delegated := translate delegate normalized in
  normalize normalizer sutra = Success normalized script ->
  history run h = history delegated h
  /\ (forall error, settled run h = inl error <-> settled delegated h = inl error)
  /\ (forall inner,
        settled delegated h = inr inner ->
        exists result,
          settled run h = inr result
          /\ words result = words inner
          /\ alternativeTranslations result = alternativeTranslations inner
          /\ warnings result = warnings inner).
Proof.
  cbn zeta. intros Hnormalize. unfold settled, history.
  rewrite normalizing_run, Hnormalize.
  destruct (translate delegate normalized h) as [h' [error|inner]]; cbn [fst snd].
  - split; [reflexivity|]. split; [tauto | discriminate].
  - split; [reflexivity|]. split; [split; discriminate|].
    intros ? [= <-]. by eexists.
Qed.

Lemma normalizing_delegates_witness :
  normalize sampleNormalizer (js "om") = Success (js "om") iast
  /\ history (translate sampleService (js "om")) []
     = history (translate (HybridTranslationService omLlmClient omDictionaryClient)
                  (js "om")) [].
Proof.
  split; [reflexivity|].
  exact (proj1 (normalizing_delegates sampleNormalizer
                  (HybridTranslationService omLlmClient omDictionaryClient)
                  (js "om") (js "om") iast [] eq_refl)).
Defined.

(** X16.  For a text classified [iast] the wrapper is transparent: around
    the hybrid service and around the LLM-only service, which build their
    text fields the same way, it returns what the service alone returns and
    leaves the same history. *)
Theorem normalizing_transparent_for_iast (detector : ScriptDetector)
    (converter : ScriptConverter) (llmClient : LlmClient)
    (dictionaryClient : DictionaryClient) (sutra : jsstring) (h : History) :
  let normalizer := ScriptNormalizerImpl detector converter in
  let hybrid := HybridTranslationService llmClient dictionaryClient in
  let llmOnly := LlmTranslationService llmClient in
  detect detector sutra = iast ->
  translate (NormalizingTranslationService normalizer hybrid) sutra h
  = translate hybrid sutra h
  /\ translate (NormalizingTranslationService normalizer llmOnly) sutra h
     = translate llmOnly sutra h.
Proof.
  cbn zeta. intros Hiast.
  assert (Hnormalize : normalize (ScriptNormalizerImpl detector converter) sutra
                       = Success sutra iast).
  { unfold ScriptNormalizerImpl; cbn [normalize]. rewrite Hiast.
    by rewrite !decide_False. }
  split; rewrite normalizing_run, Hnormalize.
  - pose proof (hybrid_run llmClient dictionaryClient sutra h) as Run;
      cbn zeta in Run. unfold settled, history in Run.
    destruct (translate (HybridTranslationService llmClient dictionaryClient) sutra h)
      as [h' r]; cbn [fst snd] in Run.
    by destruct Run.
  - rewrite llm_service_run.
    by destruct (llm_reply llmClient (atLlmCall h sutra) sutra).
Qed.

Lemma normalizing_transparent_for_iast_witness :
  detect (ScriptDetectorImpl latinLetters) (js "om") = iast
  /\ translate sampleService (js "om") []
     = translate (HybridTranslationService omLlmClient omDictionaryClient) (js "om") [].
Proof.
  split; [reflexivity|].
  exact (proj1 (normalizing_transparent_for_iast (ScriptDetectorImpl latinLetters)
                  identityConverter omLlmClient omDictionaryClient (js "om") []
                  eq_refl)).
Defined.

Lemma ClaudeLlmClient_rejection {Number : Type} (Number_toString : Number -> jsstring)
    (JSON_parse : jsstring -> option (JsValue Number)) (created : Thrown + Message)
    (error : Thrown) :
  ClaudeLlmClient_translateSutra Number_toString JSON_parse created = inl error ->
  exists message, error = ClaudeLlmError message.
Proof.
  unfold ClaudeLlmClient_translateSutra.
  destruct (attempt response <- created;
            parseResponse Number_toString JSON_parse response) as [e|ok];
    [|discriminate].
  intros [= <-]. destruct e; cbn [rethrow]; by eexists.
Qed.

(** X17.  The whole pipeline - normaliser, hybrid service, Claude client -
    rejects in two ways only: with the [TranslationError] of mixed-script
    input, in which case no collaborator was called, or with a
    [ClaudeLlmError] from the model side.  Nothing the dictionary or the API
    throws reaches the caller in another form. *)
Theorem pipeline_rejections {Number : Type} (Number_toString : Number -> jsstring)
    (JSON_parse : jsstring -> option (JsValue Number))
    (messages_create : History -> jsstring -> Thrown + Message)
    (detector : ScriptDetector) (converter : ScriptConverter)
    (dictionaryClient : DictionaryClient) (sutra : jsstring) (h : History)
    (error : Thrown) :
  let llmClient := ClaudeLlmClient Number_toString JSON_parse messages_create in
  let service :=
    NormalizingTranslationService (ScriptNormalizerImpl detector converter)
      (HybridTranslationService llmClient dictionaryClient) in
  settled (translate service sutra) h = inl error ->
  (error = TranslationError MIXED_SCRIPT_ERROR
   /\ detect detector sutra = mixed
   /\ history (translate service sutra) h = h)
  \/ (exists message, error = ClaudeLlmError message).
Proof.
  cbn zeta. unfold settled, history. rewrite normalizing_run.
  destruct (normalize (ScriptNormalizerImpl detector converter) sutra)
    as [normalized script|message] eqn:Hnormalize.
  - pose proof (hybrid_run (ClaudeLlmClient Number_toString JSON_parse messages_create)
                  dictionaryClient normalized h) as Run; cbn zeta in Run.
    unfold settled, history in Run.
    destruct (translate _ normalized h) as [h' r]; cbn [fst snd] in Run.
    destruct Run as [e Llm | | ]; cbn [snd]; [|discriminate..].
    intros [= <-]. right. cbn [llm_reply ClaudeLlmClient] in Llm.
    by eapply ClaudeLlmClient_rejection.
  - cbn [fst snd]. intros [= <-]. left.
    unfold ScriptNormalizerImpl in Hnormalize; cbn [normalize] in Hnormalize.
    destruct (decide (detect detector sutra = mixed)) as [Hmixed|_].
    + by injection Hnormalize as <-.
    + by destruct (decide (detect detector sutra = devanagari)).
Qed.

Lemma pipeline_rejections_witness :
  settled (translate unprintablePipeline (js "om")) []
  = inl (ClaudeLlmError (FAILED_TO_TRANSLATE ++ NOT_PRIMITIVE))
  /\ ((ClaudeLlmError (FAILED_TO_TRANSLATE ++ NOT_PRIMITIVE)
       = TranslationError MIXED_SCRIPT_ERROR
       /\ detect (ScriptDetectorImpl latinLetters) (js "om") = mixed
       /\ history (translate unprintablePipeline (js "om")) [] = [])
      \/ exists message,
           ClaudeLlmError (FAILED_TO_TRANSLATE ++ NOT_PRIMITIVE) = ClaudeLlmError message).
Proof.
  assert (H : settled (translate unprintablePipeline (js "om")) []
              = inl (ClaudeLlmError (FAILED_TO_TRANSLATE ++ NOT_PRIMITIVE)))
    by by vm_compute.
  split; [exact H|].
  exact (pipeline_rejections Z_toString (parsesOnly unprintableText unprintableJson)
           (fun _ _ => inr unprintableReply) (ScriptDetectorImpl latinLetters)
           identityConverter omDictionaryClient (js "om") [] _ H).
Defined.

(* ===================================================================== *)
(** * Properties of the command line *)
(* ===================================================================== *)

Lemma filter_not_mock_nil (args : list jsstring) :
  filter (fun arg => arg <> Cli.MOCK) args = []
  <-> Forall (fun arg => arg = Cli.MOCK) args.
Proof.
  induction args as [|arg args IH]; [by split; [constructor|]|].
  destruct (decide (arg = Cli.MOCK)) as [->|Hne].
  - rewrite filter_cons_False by (by intros ?). rewrite IH.
    split; [by constructor | by inversion 1].
  - rewrite filter_cons_True by done. split; [discriminate|]. by inversion 1.
Qed.

Lemma filter_not_mock_id (args : list jsstring) :
  Cli.MOCK ∉ args -> filter (fun arg => arg <> Cli.MOCK) args = args.
Proof.
  intros Hnot. apply filter_fixed. apply Forall_forall. intros arg Hin ->. done.
Qed.

(** X18.  [parseArgs] finds no sutra exactly when every argument is the
    [--mock] flag (no argument at all included); the flag may stand anywhere
    without changing the sutra; a single argument is the sutra as it stands,
    and without the flag the sutra is all arguments joined by single
    spaces. *)
Theorem parseArgs_sutra (args : list jsstring) :
  (Cli.sutra (Cli.parseArgs args) = None
   <-> Forall (fun arg => arg = Cli.MOCK) args)
  /\ (forall before after,
        args = before ++ Cli.MOCK :: after ->
        Cli.useMock (Cli.parseArgs args) = true
        /\ Cli.sutra (Cli.parseArgs args) = Cli.sutra (Cli.parseArgs (before ++ after)))
  /\ (forall text, args = [text] -> text <> Cli.MOCK ->
        Cli.parseArgs args = {| Cli.useMock := false; Cli.sutra := Some text |})
  /\ (Cli.MOCK ∉ args -> args <> [] ->
      Cli.parseArgs args
      = {| Cli.useMock := false; Cli.sutra := Some (join Cli.SPACE args) |}).
Proof.
  unfold Cli.parseArgs; cbn [Cli.sutra Cli.useMock]. split; [|split; [|split]].
  - rewrite <- filter_not_mock_nil.
    destruct (filter (fun arg => arg <> Cli.MOCK) args) as [|arg rest]; [done|].
    rewrite bool_decide_eq_true_2 by (cbn; lia). done.
  - intros before after ->. split.
    + apply bool_decide_eq_true_2. set_solver.
    + rewrite !filter_app, filter_cons_False by (by intros ?). done.
  - intros text -> Hne.
    rewrite bool_decide_eq_false_2
      by (intros H; apply list_elem_of_singleton in H; congruence).
    rewrite filter_cons_True by done. done.
  - intros Hnot Hne. rewrite bool_decide_eq_false_2 by done.
    rewrite filter_not_mock_id by done.
    destruct args; [done|]. rewrite bool_decide_eq_true_2 by (cbn; lia). done.
Qed.

Lemma parseArgs_sutra_witness :
  Cli.useMock (Cli.parseArgs [Cli.MOCK; js "atha"; js "yoga"]) = true
  /\ Cli.sutra (Cli.parseArgs [Cli.MOCK; js "atha"; js "yoga"])
     = Cli.sutra (Cli.parseArgs ([] ++ [js "atha"; js "yoga"])).
Proof.
  exact (proj1 (proj2 (parseArgs_sutra [Cli.MOCK; js "atha"; js "yoga"]))
           [] [js "atha"; js "yoga"] eq_refl).
Defined.

(* ===================================================================== *)
(** * Properties of the prompt loader *)
(* ===================================================================== *)

Section ReplaceAll.
Variables pattern replacement : jsstring.

Lemma replaceAll_scan_absent (before s : jsstring) :
  includes pattern s = false ->
  replaceAll_scan pattern replacement 0 before s = s.
Proof.
  revert before. induction s as [|u s IH]; intros before Habsent; [reflexivity|].
  cbn [includes] in Habsent. apply orb_false_iff in Habsent as [Hhere Hlater].
  cbn [replaceAll_scan]. rewrite Hhere. by rewrite IH.
Qed.

Lemma replaceAll_scan_skip (x before s : jsstring) :
  replaceAll_scan pattern replacement (length x) before (x ++ s)
  = replaceAll_scan pattern replacement 0 (before ++ x) s.
Proof.
  revert before. induction x as [|u x IH]; intros before.
  - by rewrite app_nil_r.
  - cbn [length app replaceAll_scan]. rewrite IH. by rewrite <- app_assoc.
Qed.

Lemma replaceAll_scan_prefix (first : N) (a before s : jsstring) :
  (forall u s', u <> first -> startsWith pattern (u :: s') = false) ->
  first ∉ a ->
  replaceAll_scan pattern replacement 0 before (a ++ s)
  = a ++ replaceAll_scan pattern replacement 0 (before ++ a) s.
Proof.
  intros Hfirst. revert before. induction a as [|u a IH]; intros before Hnot.
  - by rewrite app_nil_r.
  - apply not_elem_of_cons in Hnot as [Hne Hnot].
    cbn [app replaceAll_scan]. rewrite Hfirst by done.
    rewrite IH by done. by rewrite <- app_assoc.
Qed.
End ReplaceAll.

Lemma getSubstitution_plain (matched before after template : jsstring) :
  DOLLAR ∉ template -> getSubstitution matched before after template = template.
Proof.
  induction template as [|u template IH]; intros Hnot; [reflexivity|].
  apply not_elem_of_cons in Hnot as [Hne Hnot]. cbn [getSubstitution].
  destruct (N.eqb_spec u DOLLAR) as [->|_]; [done|]. by rewrite IH.
Qed.

Lemma startsWith_placeholder_other (name : jsstring) (u : N) (s : jsstring) :
  u <> 0x7B -> startsWith (placeholder name) (u :: s) = false.
Proof.
  intros Hne. unfold placeholder. cbn [js app startsWith].
  change (N_of_ascii "{") with 0x7B.
  destruct (N.eqb_spec 0x7B u) as [<-|_]; done.
Qed.

(** One placeholder, in a text that has no brace before it and no second
    occurrence after it. *)
Lemma replaceAll_placeholder (name value a b : jsstring) :
  0x7B ∉ a -> includes (placeholder name) b = false ->
  replaceAll (placeholder name) value (a ++ placeholder name ++ b)
  = a ++ getSubstitution (placeholder name) a b value ++ b.
Proof.
  intros Ha Hb. unfold replaceAll.
  rewrite (replaceAll_scan_prefix (placeholder name) value 0x7B a [] _
             (startsWith_placeholder_other name) Ha).
  f_equal. cbn [app].
  destruct (placeholder name) as [|first rest] eqn:E; [discriminate E|].
  change ((first :: rest) ++ b) with (first :: (rest ++ b)).
  cbn [replaceAll_scan]. change (first :: rest ++ b) with ((first :: rest) ++ b).
  rewrite startsWith_app, drop_app_length. f_equal.
  replace (length (first :: rest) - 1)%nat with (length rest) by (cbn; lia).
  rewrite replaceAll_scan_skip. by apply replaceAll_scan_absent.
Qed.

(** X19.  Placeholders without a variable stay: when the template contains
    the placeholder of none of the variables, [substituteVariables] returns
    the template unchanged, whatever other placeholders it has; with no
    variables at all every template is unchanged. *)
Theorem unmatched_placeholders_stay (template : jsstring)
    (variables : list (jsstring * jsstring)) :
  Forall (fun entry => includes (placeholder entry.1) template = false) variables ->
  substituteVariables template variables = template.
Proof.
  unfold substituteVariables. induction 1 as [|entry variables Hentry _ IH];
    [reflexivity|].
  cbn [fold_left]. unfold replaceAll at 2.
  by rewrite replaceAll_scan_absent.
Qed.

Lemma unmatched_placeholders_stay_witness :
  Forall (fun entry => includes (placeholder entry.1) (js "Text: {{unknown}}") = false)
    [(js "sutra", js "test")]
  /\ substituteVariables (js "Text: {{unknown}}") [(js "sutra", js "test")]
     = js "Text: {{unknown}}".
Proof.
  assert (H : Forall (fun entry : jsstring * jsstring =>
                        includes (placeholder entry.1) (js "Text: {{unknown}}") = false)
                [(js "sutra", js "test")])
    by (constructor; [reflexivity | constructor]).
  split; [exact H|].
  exact (unmatched_placeholders_stay (js "Text: {{unknown}}")
           [(js "sutra", js "test")] H).
Defined.

(** X20.  A value is put in place of its placeholder through the replacement
    patterns of [replaceAll]: a value without a dollar sign is inserted as it
    is, but a doubled dollar sign in the value comes out single, and the
    value [$&] puts the placeholder back.  (For a template with no brace
    before the placeholder and no further occurrence after it.) *)
Theorem value_goes_through_replacement_patterns (name value a b : jsstring) :
  let template := a ++ placeholder name ++ b in
  let result := substituteVariables template [(name, value)] in
  (0x7B ∉ a) -> includes (placeholder name) b = false ->
  result = a ++ getSubstitution (placeholder name) a b value ++ b
  /\ ((DOLLAR ∉ value) -> result = a ++ value ++ b)
  /\ (forall rest, (DOLLAR ∉ rest) -> value = DOLLAR :: DOLLAR :: rest ->
        result = a ++ (DOLLAR :: rest) ++ b)
  /\ (value = js "$&" -> result = template).
Proof.
  cbn zeta. intros Ha Hb. unfold substituteVariables; cbn [fold_left fst snd].
  rewrite replaceAll_placeholder by done. split; [reflexivity|].
  split; [|split].
  - intros Hplain. by rewrite getSubstitution_plain.
  - intros rest Hplain ->. cbn [getSubstitution]. rewrite N.eqb_refl.
    by rewrite getSubstitution_plain.
  - intros ->. cbn. by rewrite app_nil_r.
Qed.

Lemma value_goes_through_replacement_patterns_witness :
  (0x7B ∉ js "Sutra: ") /\ includes (placeholder (js "sutra")) (js "!") = false
  /\ (DOLLAR ∉ js "atha")
  /\ substituteVariables (js "Sutra: " ++ placeholder (js "sutra") ++ js "!")
       [(js "sutra", js "atha")]
     = js "Sutra: " ++ js "atha" ++ js "!".
Proof.
  assert (H1 : 0x7B ∉ js "Sutra: ") by by apply (bool_decide_unpack _).
  assert (H2 : DOLLAR ∉ js "atha") by by apply (bool_decide_unpack _).
  split; [exact H1|]. split; [reflexivity|]. split; [exact H2|].
  exact (proj1 (proj2 (value_goes_through_replacement_patterns (js "sutra") (js "atha")
                         (js "Sutra: ") (js "!") H1 eq_refl)) H2).
Defined.

(** X21.  A prompt that was loaded is served from the cache from then on:
    the same content comes back whatever has become of the file, and the
    cache is not touched again.  A load that fails caches nothing, so the
    prompt can be loaded once the file is there; loading one prompt never
    changes what is cached for another. *)
Theorem loadPrompt_caches (fs : FileSystem) (promptsDirectory promptName : jsstring)
    (cache : gmap (list N) (list N)) :
  let loaded := loadPrompt fs promptsDirectory promptName cache in
  (forall content,
     loaded.1 = inr content ->
     forall fs', loadPrompt fs' promptsDirectory promptName loaded.2
                 = (inr content, loaded.2))
  /\ (forall error, loaded.1 = inl error -> loaded.2 = cache)
  /\ (forall other, other <> promptName -> loaded.2 !! other = cache !! other)
  /\ (cache !! promptName = None ->
      existsSync fs (path_join fs promptsDirectory (promptName ++ js ".txt")) = false ->
      loaded = (inl (PromptNotFoundError promptName), cache)).
Proof.
  cbn zeta. unfold loadPrompt.
  destruct (cache !! promptName) as [cached|] eqn:Cached; cbn [fst snd].
  - split; [|split; [|split]]; try done.
    intros content [= <-] fs'. by rewrite Cached.
  - destruct (existsSync fs _) eqn:Exists; cbn [negb fst snd].
    + destruct (readFileSync fs _) as [error|content] eqn:Read; cbn [fst snd].
      * by repeat split.
      * split; [|split; [|split]]; try done.
        -- intros ? [= <-] fs'. by rewrite lookup_insert_eq.
        -- intros other Hne. by rewrite lookup_insert_ne.
    + by repeat split.
Qed.

Lemma loadPrompt_caches_witness :
  (loadPrompt promptFiles (js "prompts") (js "translate") ∅).1
  = inr (js "Translate: {{sutra}}")
  /\ loadPrompt noFiles (js "prompts") (js "translate")
       (loadPrompt promptFiles (js "prompts") (js "translate") ∅).2
     = (inr (js "Translate: {{sutra}}"),
        (loadPrompt promptFiles (js "prompts") (js "translate") ∅).2).
Proof.
  split; [reflexivity|].
  exact (proj1 (loadPrompt_caches promptFiles (js "prompts") (js "translate") ∅)
           (js "Translate: {{sutra}}") eq_refl noFiles).
Defined.

Lemma placeholder_plain (name : jsstring) :
  DOLLAR ∉ name -> DOLLAR ∉ placeholder name.
Proof.
  intros Hname. unfold placeholder. rewrite !not_elem_of_app.
  split; [by apply (bool_decide_unpack _)|].
  split; [done | by apply (bool_decide_unpack _)].
Qed.

Lemma replaceAll_whole_placeholder (name value : jsstring) :
  DOLLAR ∉ value -> replaceAll (placeholder name) value (placeholder name) = value.
Proof.
  intros Hvalue.
  pose proof (replaceAll_placeholder name value [] []) as H.
  cbn [app] in H. rewrite app_nil_r in H. rewrite H; [|apply not_elem_of_nil|].
  - rewrite app_nil_r. by apply getSubstitution_plain.
  - cbn. by destruct (placeholder name).
Qed.

(** X22.  The variables are substituted one after the other, each in the
    result of the one before.  A value that is the placeholder of a later
    variable is therefore replaced in turn by that variable's value, while
    with the variables in the other order the placeholder stays in the
    result. *)
Theorem substitution_is_sequential (name1 name2 value : jsstring) :
  (DOLLAR ∉ name2) -> (DOLLAR ∉ value) ->
  includes (placeholder name2) (placeholder name1) = false ->
  substituteVariables (placeholder name1) [(name1, placeholder name2); (name2, value)]
  = value
  /\ substituteVariables (placeholder name1)
       [(name2, value); (name1, placeholder name2)]
     = placeholder name2.
Proof.
  intros Hname Hvalue Hother. unfold substituteVariables; cbn [fold_left fst snd].
  split.
  - rewrite replaceAll_whole_placeholder by by apply placeholder_plain.
    by apply replaceAll_whole_placeholder.
  - unfold replaceAll at 2. rewrite replaceAll_scan_absent by done.
    apply replaceAll_whole_placeholder. by apply placeholder_plain.
Qed.

Lemma substitution_is_sequential_witness :
  (DOLLAR ∉ js "language") /\ (DOLLAR ∉ js "English")
  /\ includes (placeholder (js "language")) (placeholder (js "sutra")) = false
  /\ substituteVariables (placeholder (js "sutra"))
       [(js "sutra", placeholder (js "language")); (js "language", js "English")]
     = js "English".
Proof.
  assert (H1 : DOLLAR ∉ js "language") by by apply (bool_decide_unpack _).
  assert (H2 : DOLLAR ∉ js "English") by by apply (bool_decide_unpack _).
  split; [exact H1|]. split; [exact H2|]. split; [reflexivity|].
  exact (proj1 (substitution_is_sequential (js "sutra") (js "language") (js "English")
                  H1 H2 eq_refl)).
Defined.

(* ===================================================================== *)
(** * Properties of the image check *)
(* ===================================================================== *)

Lemma byteIs_head (b : N) (l : list N) (byte : N) :
  byteIs (b :: l) 0 byte = (byte =? b).
Proof.
  unfold byteIs; cbn. destruct (N.eqb_spec byte b) as [->|Hne].
  - by apply bool_decide_eq_true_2.
  - apply bool_decide_eq_false_2. congruence.
Qed.

Lemma byteIs_tail (b : N) (l : list N) (i : nat) (byte : N) :
  byteIs (b :: l) (S i) byte = byteIs l i byte.
Proof. reflexivity. Qed.

Lemma byteIs_nil (i : nat) (byte : N) : byteIs [] i byte = false.
Proof. by destruct i. Qed.

Lemma byteIs_lookup (l : list N) (i : nat) (byte : N) :
  byteIs l i byte = match l !! i with Some b => (byte =? b) | None => false end.
Proof.
  unfold byteIs. destruct (l !! i) as [b|]; [|done].
  destruct (N.eqb_spec byte b) as [->|Hne].
  - by apply bool_decide_eq_true_2.
  - apply bool_decide_eq_false_2. congruence.
Qed.

Lemma webp_tail (rest : list N) :
  bool_decide (12 <= 4 + length rest)%nat && byteIs rest 4 0x57 && byteIs rest 5 0x45
  && byteIs rest 6 0x42 && byteIs rest 7 0x50
  = startsWith WEBP (drop 4 rest).
Proof.
  rewrite !byteIs_lookup.
  destruct rest as [|r0 [|r1 [|r2 [|r3 [|r4 [|r5 [|r6 [|r7 rest]]]]]]]];
    cbn [drop startsWith WEBP length lookup list_lookup];
    rewrite ?andb_false_r; try reflexivity.
  rewrite bool_decide_eq_true_2 by lia. cbn [andb].
  by rewrite andb_true_r, !andb_assoc.
Qed.

Lemma if_true_orb (a r : bool) : (if a then true else r) = a || r.
Proof. by destruct a. Qed.

(** The check of a buffer of four bytes or more, as one Boolean formula. *)
Lemma isValidImageBuffer_formula (b0 b1 b2 b3 : N) (rest : list N) :
  let buffer := b0 :: b1 :: b2 :: b3 :: rest in
  isValidImageBuffer buffer
  = startsWith PNG buffer || startsWith JPEG buffer
    || (startsWith RIFF buffer && startsWith WEBP (drop 8 buffer))
    || startsWith TIFF_LE buffer || startsWith TIFF_BE buffer.
Proof.
  cbn zeta. unfold isValidImageBuffer.
  rewrite bool_decide_eq_false_2 by (cbn; lia).
  change (length (b0 :: b1 :: b2 :: b3 :: rest)) with (4 + length rest)%nat.
  change (drop 8 (b0 :: b1 :: b2 :: b3 :: rest)) with (drop 4 rest).
  rewrite <- (webp_tail rest).
  rewrite ?byteIs_tail, ?byteIs_head.
  cbn [startsWith PNG JPEG RIFF TIFF_LE TIFF_BE].
  rewrite !if_true_orb. btauto.
Qed.

(** X23.  The image check accepts a buffer exactly when it has at least four
    bytes and starts with the PNG, JPEG or TIFF signature, or with [RIFF]
    and, from byte 8, [WEBP].  Nothing after the signature is looked at, and
    the three bytes of the JPEG signature alone are rejected. *)
Theorem isValidImageBuffer_signatures (buffer : list N) :
  (isValidImageBuffer buffer = true <->
   (4 <= length buffer)%nat
   /\ (startsWith PNG buffer = true \/ startsWith JPEG buffer = true
       \/ (startsWith RIFF buffer = true /\ startsWith WEBP (drop 8 buffer) = true)
       \/ startsWith TIFF_LE buffer = true \/ startsWith TIFF_BE buffer = true))
  /\ (forall signature rest,
        signature ∈ [PNG; TIFF_LE; TIFF_BE] ->
        isValidImageBuffer (signature ++ rest) = true)
  /\ (forall rest, isValidImageBuffer (JPEG ++ rest) = bool_decide (rest <> []))
  /\ isValidImageBuffer JPEG = false.
Proof.
  split; [|split; [|split; [|reflexivity]]].
  - destruct buffer as [|b0 [|b1 [|b2 [|b3 rest]]]];
      try (split; [discriminate | intros [Hlen _]; cbn in Hlen; lia]).
    rewrite isValidImageBuffer_formula.
    rewrite !orb_true_iff, andb_true_iff.
    split; [intros H; split; [cbn; lia | tauto] | tauto].
  - intros signature rest Hin. rewrite !elem_of_cons, elem_of_nil in Hin.
    destruct Hin as [-> | [-> | [-> | []]]];
      cbn [app PNG TIFF_LE TIFF_BE]; by rewrite isValidImageBuffer_formula.
  - intros [|r rest]; [reflexivity|].
    cbn [app JPEG]. by rewrite isValidImageBuffer_formula.
Qed.

Lemma isValidImageBuffer_signatures_witness :
  PNG ∈ [PNG; TIFF_LE; TIFF_BE] /\ isValidImageBuffer (PNG ++ [0]) = true.
Proof.
  assert (H : PNG ∈ [PNG; TIFF_LE; TIFF_BE]) by by left.
  split; [exact H|].
  exact (proj1 (proj2 (isValidImageBuffer_signatures [])) PNG [0] H).
Defined.

Lemma normalizeToLines_empty_iff_blank_witness :
  Forall (fun u => isWhiteSpace u = true) [0x20; LF; 0x09]
  /\ normalizeToLines [0x20; LF; 0x09] = [].
Proof.
  assert (H : Forall (fun u => isWhiteSpace u = true) [0x20; LF; 0x09])
    by by apply (bool_decide_unpack _).
  split; [exact H|].
  exact (proj2 (proj1 (proj2 (normalizeToLines_empty_iff_blank [0x20; LF; 0x09]))) H).
Defined.

(* ===================================================================== *)
(** * The pipeline on Devanagari input *)
(* ===================================================================== *)

(** X24.  For a text classified [devanagari] the pipeline works on the
    converted text: the model is called with it, the dictionary with the
    words the model found in it, and [iastText] holds its lines, while
    [originalText] holds the lines of the text as it was given. *)
Theorem devanagari_input_is_converted_first (detector : ScriptDetector)
    (converter : ScriptConverter) (llmClient : LlmClient)
    (dictionaryClient : DictionaryClient) (sutra : jsstring) (h : History) :
  let hybrid := HybridTranslationService llmClient dictionaryClient in
  let service :=
    NormalizingTranslationService (ScriptNormalizerImpl detector converter) hybrid in
  let converted := toIast converter sutra in
  let events := since h (history (translate service sutra) h) in
  detect detector sutra = devanagari ->
  history (translate service sutra) h = history (translate hybrid converted) h
  /\ (forall text, LlmInvoked text ∈ events -> text = converted)
  /\ LlmInvoked converted ∈ events
  /\ (forall result,
        settled (translate service sutra) h = inr result ->
        originalText result = normalizeToLines sutra
        /\ iastText result = normalizeToLines converted).
Proof.
  cbn zeta. intros Hdevanagari.
  assert (Hnormalize : normalize (ScriptNormalizerImpl detector converter) sutra
                       = Success (toIast converter sutra) devanagari).
  { unfold ScriptNormalizerImpl; cbn [normalize]. rewrite Hdevanagari.
    rewrite decide_False by done. by rewrite decide_True. }
  unfold settled, history. rewrite normalizing_run, Hnormalize.
  pose proof (hybrid_run llmClient dictionaryClient (toIast converter sutra) h) as Run;
    cbn zeta in Run. unfold settled, history in Run.
  destruct (translate (HybridTranslationService llmClient dictionaryClient)
              (toIast converter sutra) h) as [h' r]; cbn [fst snd] in Run.
  destruct Run as [error Llm | llmResponse error ws Llm Dict
                   | llmResponse found ws Llm Dict];
    try subst ws; cbn [fst snd]; rewrite since_app;
    (split; [reflexivity|]); (split; [|split; [set_solver|]]);
    try (intros text H; rewrite !elem_of_cons, elem_of_nil in H;
         repeat (destruct H as [H|H]; [by simplify_eq|]); done);
    try discriminate; by intros result [= <-].
Qed.

Lemma devanagari_input_is_converted_first_witness :
  detect (ScriptDetectorImpl latinLetters) [0x905; 0x20; 0x31] = devanagari
  /\ LlmInvoked [0x20; 0x31]
     ∈ since [] (history
                   (translate
                      (NormalizingTranslationService
                         (ScriptNormalizerImpl (ScriptDetectorImpl latinLetters)
                            droppingConverter)
                         (HybridTranslationService omLlmClient omDictionaryClient))
                      [0x905; 0x20; 0x31]) []).
Proof.
  split; [reflexivity|].
  exact (proj1 (proj2 (proj2
           (devanagari_input_is_converted_first (ScriptDetectorImpl latinLetters)
              droppingConverter omLlmClient omDictionaryClient
              [0x905; 0x20; 0x31] [] eq_refl)))).
Defined.

(* ===================================================================== *)
(** * Building a prompt *)
(* ===================================================================== *)

Lemma loadPrompt_again (fs fs' : FileSystem) (promptsDirectory promptName : jsstring)
    (cache cache' : gmap (list N) (list N)) (template : jsstring) :
  loadPrompt fs promptsDirectory promptName cache = (inr template, cache') ->
  loadPrompt fs' promptsDirectory promptName cache' = (inr template, cache').
Proof.
  unfold loadPrompt.
  destruct (cache !! promptName) as [cached|] eqn:Cached.
  - intros [= <- <-]. by rewrite Cached.
  - destruct (negb (existsSync fs _)); [discriminate|].
    destruct (readFileSync fs _) as [error|content]; [discriminate|].
    intros [= <- <-]. by rewrite lookup_insert_eq.
Qed.

(** X25.  [buildPrompt] caches the template, not the prompt it builds: it
    fails exactly when loading fails, with the same error, and after one
    successful build any later build of that prompt substitutes its own
    variables into the same template, without reading the file again. *)
Theorem buildPrompt_caches_template (fs : FileSystem)
    (promptsDirectory promptName : jsstring)
    (variables : list (jsstring * jsstring)) (cache : gmap (list N) (list N)) :
  let built := buildPrompt fs promptsDirectory promptName variables cache in
  let loaded := loadPrompt fs promptsDirectory promptName cache in
  built.2 = loaded.2
  /\ (forall error, built.1 = inl error <-> loaded.1 = inl error)
  /\ (forall prompt,
        built.1 = inr prompt ->
        exists template,
          loaded.1 = inr template
          /\ prompt = substituteVariables template variables
          /\ forall fs' variables',
               buildPrompt fs' promptsDirectory promptName variables' built.2
               = (inr (substituteVariables template variables'), built.2)).
Proof.
  cbn zeta. unfold buildPrompt.
  destruct (loadPrompt fs promptsDirectory promptName cache) as [[error|template] cache']
    eqn:Loaded; cbn [fst snd].
  - split; [reflexivity|]. split; [tauto | discriminate].
  - split; [reflexivity|]. split; [split; discriminate|].
    intros prompt [= <-]. exists template. split; [reflexivity|].
    split; [reflexivity|]. intros fs' variables'.
    by rewrite (loadPrompt_again fs fs' _ _ cache cache' template Loaded).
Qed.

Lemma buildPrompt_caches_template_witness :
  exists template,
    (loadPrompt promptFiles (js "prompts") (js "translate") ∅).1 = inr template
    /\ substituteVariables (js "Translate: {{sutra}}") [(js "sutra", js "atha")]
       = substituteVariables template [(js "sutra", js "atha")]
    /\ forall fs' variables',
         buildPrompt fs' (js "prompts") (js "translate") variables'
           (buildPrompt promptFiles (js "prompts") (js "translate")
              [(js "sutra", js "atha")] ∅).2
         = (inr (substituteVariables template variables'),
            (buildPrompt promptFiles (js "prompts") (js "translate")
               [(js "sutra", js "atha")] ∅).2).
Proof.
  exact (proj2 (proj2 (buildPrompt_caches_template promptFiles (js "prompts")
                         (js "translate") [(js "sutra", js "atha")] ∅))
           (substituteVariables (js "Translate: {{sutra}}") [(js "sutra", js "atha")])
           eq_refl).
Defined.
